(** * Keycloak bearer-token authenticator (pkg/agent/auth/keycloakauthn.v2.go)

    A shallow embedding of the Go package [auth]: the functions
    [getJWKeyFunc], [NewKeycloakAuthenticator], [getToken],
    [TranslateToTornjakRoles] and [AuthenticateRequest], together with the
    statements of the design document that concern them.

    Go strings are byte sequences, modelled by [string]; maps by stdpp's
    [gmap]; the calls into the libraries the package imports (OIDC
    discovery, keyfunc, jwt) are the events of a small free monad, so that
    every statement about the package holds whatever the libraries answer. *)

From Stdlib Require Import ZArith NArith Ascii String List Bool Lia.
From stdpp Require Import base option gmap strings list.

Set Default Proof Using "Type".
Local Open Scope string_scope.
Local Open Scope list_scope.

(** ** Go strings: bytes, runes and [strings.Fields] *)

Module GoStrings.

Definition rune := N.

Definition RuneError : rune := 0xFFFD%N.

Definition byte_val (c : ascii) : N := N_of_ascii c.

Definition between (lo hi b : N) : bool := ((lo <=? b) && (b <=? hi))%N.

(** A UTF-8 continuation byte, 10xxxxxx. *)
Definition is_cont (b : N) : bool := between 0x80 0xBF b.

Definition low6 (b : N) : N := N.land b 0x3F.

(** Modelled from the spec: [utf8.DecodeRuneInString] of the Go standard
    library is not under src/; it is what [range] over a string computes.
    The first rune of [s] and its width in bytes; an invalid or truncated
    encoding (over-long forms, surrogates and values above U+10FFFF
    included) is [RuneError] of width 1. *)
Definition DecodeRuneInString (s : string) : rune * nat :=
  match s with
  | EmptyString => (RuneError, 0)
  | String c0 s1 =>
    let b0 := byte_val c0 in
    if (b0 <? 0x80)%N then (b0, 1)
    else if between 0xC2 0xDF b0 then
      match s1 with
      | String c1 _ =>
        let b1 := byte_val c1 in
        if is_cont b1
        then (N.lor (N.shiftl (N.land b0 0x1F) 6) (low6 b1), 2)
        else (RuneError, 1)
      | _ => (RuneError, 1)
      end
    else if between 0xE0 0xEF b0 then
      match s1 with
      | String c1 (String c2 _) =>
        let b1 := byte_val c1 in
        let b2 := byte_val c2 in
        let lo := if (b0 =? 0xE0)%N then 0xA0%N else 0x80%N in
        let hi := if (b0 =? 0xED)%N then 0x9F%N else 0xBF%N in
        if between lo hi b1 && is_cont b2
        then (N.lor (N.shiftl (N.land b0 0x0F) 12)
                (N.lor (N.shiftl (low6 b1) 6) (low6 b2)), 3)
        else (RuneError, 1)
      | _ => (RuneError, 1)
      end
    else if between 0xF0 0xF4 b0 then
      match s1 with
      | String c1 (String c2 (String c3 _)) =>
        let b1 := byte_val c1 in
        let b2 := byte_val c2 in
        let b3 := byte_val c3 in
        let lo := if (b0 =? 0xF0)%N then 0x90%N else 0x80%N in
        let hi := if (b0 =? 0xF4)%N then 0x8F%N else 0xBF%N in
        if between lo hi b1 && is_cont b2 && is_cont b3
        then (N.lor (N.shiftl (N.land b0 0x07) 18)
                (N.lor (N.shiftl (low6 b1) 12)
                   (N.lor (N.shiftl (low6 b2) 6) (low6 b3))), 4)
        else (RuneError, 1)
      | _ => (RuneError, 1)
      end
    else (RuneError, 1)
  end.

(** Modelled from the spec: [unicode.IsSpace] of the Go standard library
    is not under src/; the Unicode White_Space property. *)
Definition IsSpace (r : rune) : bool :=
  between 0x09 0x0D r            (* \t \n \v \f \r *)
  || (r =? 0x20)%N || (r =? 0x85)%N || (r =? 0xA0)%N
  || (r =? 0x1680)%N || between 0x2000 0x200A r
  || (r =? 0x2028)%N || (r =? 0x2029)%N || (r =? 0x202F)%N
  || (r =? 0x205F)%N || (r =? 0x3000)%N.

(** The field being read, if any, closed at the current position. *)
Definition flush (cur : option string) : list string :=
  match cur with Some w => [w] | None => [] end.

(** One more byte of the field being read (or the first of a new one). *)
Definition extend (cur : option string) (c : ascii) : option string :=
  Some (default "" cur +:+ String c "").

(** The scan of [strings.FieldsFunc]: [skip] counts the bytes still to
    pass of the rune decoded last, [cur] is the field being read. The
    bytes of a white-space rune belong to no field; those of any other
    rune belong to the current one. *)
Fixpoint fieldsFrom (s : string) (skip : nat) (cur : option string)
  : list string :=
  match s with
  | EmptyString => flush cur
  | String c s' =>
    match skip with
    | S k =>
      fieldsFrom s' k (match cur with Some _ => extend cur c | None => None end)
    | O =>
      let (r, w) := DecodeRuneInString s in
      if IsSpace r
      then flush cur ++ fieldsFrom s' (Nat.pred w) None
      else fieldsFrom s' (Nat.pred w) (extend cur c)
    end
  end.

(** Modelled from the spec: [strings.Fields] of the Go standard library
    is not under src/. It splits [s] around each run of one or more
    white-space runes ([unicode.IsSpace]) and returns the substrings in
    between; none of them is empty, and there is none when [s] is empty
    or all white space. *)
Definition Fields (s : string) : list string := fieldsFrom s 0 None.

(** The ASCII white-space bytes, and the ASCII bytes that are not white
    space (the bytes of a compact JWT are among them). *)
Definition asciiSpace (c : ascii) : bool :=
  (byte_val c <? 0x80)%N && IsSpace (byte_val c).

Definition asciiGraphic (c : ascii) : bool :=
  (byte_val c <? 0x80)%N && negb (IsSpace (byte_val c)).

Fixpoint every (P : ascii -> bool) (s : string) : bool :=
  match s with
  | EmptyString => true
  | String c s' => P c && every P s'
  end.

End GoStrings.

Import GoStrings.

(** ** Go values used by the package *)

(** A Go slice is [nil] or holds elements; [len] does not tell an empty
    slice from a nil one, [== nil] does. *)
Inductive slice (A : Type) : Type :=
| Nil
| Elems (l : list A).
Arguments Nil {A}.
Arguments Elems {A} l.

Definition to_list {A} (s : slice A) : list A :=
  match s with Nil => [] | Elems l => l end.

(** [append(s, x)]: appending to a nil slice allocates. *)
Definition append {A} (s : slice A) (x : A) : slice A :=
  Elems (to_list s ++ [x]).

(** Where an error value was made. [errors.Errorf] and [errors.New] of
    github.com/pkg/errors record the call stack next to the message; the
    line of the call in keycloakauthn.v2.go stands for it. [Library] is
    any error value handed over by an imported library. *)
Inductive Origin : Type :=
| Library
| Line41 | Line47      (* getJWKeyFunc *)
| Line59               (* NewKeycloakAuthenticator *)
| Line80 | Line86      (* getToken *)
| Line115 | Line120.   (* AuthenticateRequest *)

(** The Go [error] interface: [Error] is the method [Error()]. *)
Record error : Type := Errorf { origin : Origin; Error : string }.

#[global] Instance Origin_eq_dec : EqDecision Origin.
Proof. solve_decision. Defined.

#[global] Instance error_eq_dec : EqDecision error.
Proof. solve_decision. Defined.

(** The error taxonomy of the design document, as far as this package makes
    errors of its own. *)
Inductive ErrorKind : Type :=
| SetupError
| MissingOrMalformedCredential
| TokenVerificationFailed.

#[global] Instance ErrorKind_eq_dec : EqDecision ErrorKind.
Proof. solve_decision. Defined.

(** Modelled from the spec: the Go code has no error types, only messages;
    the taxonomy of section 7 is read off the place an error is made.
    Construction-time errors are [SetupError], those of [getToken] are
    [MissingOrMalformedCredential], those made once the token is handed to
    the parser are [TokenVerificationFailed] (line 115 does not tell a
    malformed token from a failed verification). *)
Definition kind_of (e : error) : option ErrorKind :=
  match origin e with
  | Library => None
  | Line41 | Line47 | Line59 => Some SetupError
  | Line80 | Line86 => Some MissingOrMalformedCredential
  | Line115 | Line120 => Some TokenVerificationFailed
  end.

(** [time.Duration]: a count of nanoseconds. *)
Module time.
Definition Duration := Z.
Definition Nanosecond : Duration := 1%Z.
Definition Microsecond : Duration := (1000 * Nanosecond)%Z.
Definition Millisecond : Duration := (1000 * Microsecond)%Z.
Definition Second : Duration := (1000 * Millisecond)%Z.
Definition Minute : Duration := (60 * Second)%Z.
Definition Hour : Duration := (60 * Minute)%Z.
End time.

(** [keyfunc.Options], the fields the package sets. The error handler is
    modelled by the text it writes to standard output. *)
Module keyfunc.
Record Options : Type := {
  RefreshErrorHandler : option (error -> string);
  RefreshInterval : time.Duration;
  RefreshRateLimit : time.Duration;
  RefreshTimeout : time.Duration;
  RefreshUnknownKID : bool
}.
End keyfunc.

(** [*keyfunc.JWKS]: the address of a key-set cache kept by the library. *)
Definition JWKS := nat.

(** Modelled from the spec: the declaration of [KeycloakClaim] is not
    under src/. The decoded claims of a token (ParsedToken in section 3):
    audience, expiry, issuer and the realm role names, read by the package
    as [claims.RealmAccess.Roles]. *)
Module KeycloakClaim.
Record RealmAccessT : Type := { Roles : slice string }.
Record t : Type := {
  RealmAccess : RealmAccessT;
  Issuer : string;
  Audience : list string;
  ExpiresAt : Z
}.
End KeycloakClaim.

(** [*jwt.Token] as the package reads it: the validity flag, and the claims
    object that [ParseWithClaims] was given to fill. *)
Module jwt.
Record Token : Type := { Valid : bool; Claims : KeycloakClaim.t }.
End jwt.

(** [discovery.Client] and the provider metadata it holds. *)
Module discovery.
Record ProviderMetadata : Type := { JWKSURI : string }.
Record Client : Type := { Metadata : ProviderMetadata }.
End discovery.

(** Modelled from the spec: the declaration of [UserInfo] is not under
    src/; the package builds it as [UserInfo{Roles: ...}]. *)
Record UserInfo : Type := { Roles : slice string }.

Record KeycloakAuthenticator : Type := {
  jwks : option JWKS;
  jwksURL : string;
  audience : string
}.

(** [*http.Request]: the header map and the other parts of a request. *)
Module http.
Definition Header := gmap string (list string).

Record Request : Type := {
  Method : string;
  URL : string;
  Proto : string;
  Header_ : Header;
  Body : string;
  RemoteAddr : string
}.

(** [Header.Get]: the first value stored under [key], or the empty string.
    The key the package passes, Authorization, is in canonical form
    already. *)
Definition Get (h : Header) (key : string) : string :=
  match h !! key with
  | Some (v :: _) => v
  | _ => ""
  end.
End http.

(** ** Calls into the imported libraries *)

Inductive Call : Type -> Type :=
| discovery_NewClient (issuerURL : string)
  : Call (discovery.Client + error)
| keyfunc_Get (jwksURL : string) (options : keyfunc.Options)
  : Call (JWKS + error)
| keyfunc_NewJSON (jwksBytes : string)
  : Call (JWKS + error)
| jwt_ParseWithClaims (tokenString : string) (keyFunc : option JWKS)
    (withAudience : string)
  : Call (jwt.Token + error).

(** A program of the package: it returns, or calls a library and goes on
    with the answer. *)
Inductive Prog (A : Type) : Type :=
| Ret (a : A)
| Do {X : Type} (c : Call X) (k : X -> Prog A).
Arguments Ret {A} a.
Arguments Do {A X} c k.

Fixpoint bind {A B} (p : Prog A) (f : A -> Prog B) : Prog B :=
  match p with
  | Ret a => f a
  | Do c k => Do c (fun x => bind (k x) f)
  end.

(** stdpp's monad notation: [x ← p; q] is [bind p (fun x => q)]. *)
#[global] Instance Prog_ret : MRet Prog := @Ret.
#[global] Instance Prog_bind : MBind Prog := fun A B f p => bind p f.

Definition call {X} (c : Call X) : Prog X := Do c Ret.

(** A call that was made, whatever its answer type. *)
Inductive Event : Type :=
| Called (X : Type) (c : Call X).
Arguments Called {X} c.

(** The options a call hands to keyfunc, if it makes a polling cache. *)
Definition optionsOf {X} (c : Call X) : option keyfunc.Options :=
  match c with
  | keyfunc_Get _ options => Some options
  | _ => None
  end.

(** Running a program against libraries that answer as [h] says. *)
Section Run.
Context {W : Type}.

(** What the libraries do in a world [W]: an answer and the next world. *)
Definition Handler := forall X, Call X -> W -> X * W.

Variable h : Handler.

Fixpoint run {A} (p : Prog A) (w : W) : A * W :=
  match p with
  | Ret a => (a, w)
  | Do c k => let (x, w') := h _ c w in run (k x) w'
  end.

(** The library calls made on the way, in order. *)
Fixpoint trace {A} (p : Prog A) (w : W) : list Event :=
  match p with
  | Ret _ => []
  | Do c k => let (x, w') := h _ c w in Called c :: trace (k x) w'
  end.

(** The options of the key-set caches asked for on the way. *)
Definition cacheOptions {A} (p : Prog A) (w : W) : list keyfunc.Options :=
  omap (fun '(Called c) => optionsOf c) (trace p w).
End Run.
Arguments Handler W : clear implicits.

(** Libraries that answer the same whatever they are asked: [d] to
    discovery, [k] to both ways of making a key-set cache, [p] to the
    parser. *)
Definition fixedLibrary (d : discovery.Client + error) (k : JWKS + error)
    (p : jwt.Token + error) : Handler unit := fun X c =>
  match c in Call X return unit -> X * unit with
  | discovery_NewClient _ => fun w => (d, w)
  | keyfunc_Get _ _ => fun w => (k, w)
  | keyfunc_NewJSON _ => fun w => (k, w)
  | jwt_ParseWithClaims _ _ _ => fun w => (p, w)
  end.

(** ** The package *)

Definition StaticRoleMappings : gmap string string :=
  {[ "tornjak-viewer-realm-role" := "viewer";
     "tornjak-admin-realm-role" := "admin" ]}.

(** The options of line 30 to 38. *)
Definition pollingOptions : keyfunc.Options := {|
  keyfunc.RefreshErrorHandler :=
    Some (fun err => "error with jwt.Keyfunc: " +:+ Error err);
  keyfunc.RefreshInterval := time.Hour;
  keyfunc.RefreshRateLimit := (time.Minute * 5)%Z;
  keyfunc.RefreshTimeout := (time.Second * 10)%Z;
  keyfunc.RefreshUnknownKID := true
|}.

Definition getJWKeyFunc (httpjwks : bool) (jwksInfo : string)
  : Prog (option JWKS * option error) :=
  if httpjwks then
    let opts := pollingOptions in
    res ← call (keyfunc_Get jwksInfo opts);
    match res with
    | inr err =>
      Ret (None, Some (Errorf Line41
        ("Could not create Keyfunc for url " +:+ jwksInfo +:+ ": " +:+ Error err)))
    | inl jwks => Ret (Some jwks, None)
    end
  else
    res ← call (keyfunc_NewJSON jwksInfo);
    match res with
    | inr err =>
      Ret (None, Some (Errorf Line47
        ("Could not create Keyfunc for json " +:+ jwksInfo +:+ ": " +:+ Error err)))
    | inl jwks => Ret (Some jwks, None)
    end.

Definition NewKeycloakAuthenticator (httpjwks : bool) (issuerURL : string)
    (audience : string) : Prog (option KeycloakAuthenticator * option error) :=
  (* perform OIDC discovery *)
  res ← call (discovery_NewClient issuerURL);
  match res with
  | inr err =>
    Ret (None, Some (Errorf Line59
      ("Could not set up OIDC Discovery client with issuer = '" +:+ issuerURL
         +:+ "': " +:+ Error err)))
  | inl oidcClient =>
    let oidcClientMetadata := discovery.Metadata oidcClient in
    let jwksURL := discovery.JWKSURI oidcClientMetadata in
    (* watch JWKS *)
    '(jwks, err) ← getJWKeyFunc httpjwks jwksURL;
    match err with
    | Some err => Ret (None, Some err)
    | None =>
      Ret (Some {| jwks := jwks; audience := audience; jwksURL := jwksURL |},
           None)
    end
  end.

(** The two errors of [getToken]. *)
Definition headerMissing (redirectURL : string) : error :=
  Errorf Line80
    ("Authorization header missing. Please obtain access token here: "
       +:+ redirectURL).

Definition expectedBearer (auth_header : string) : error :=
  Errorf Line86 ("Expected bearer token, got " +:+ auth_header).

Definition getToken (r : http.Request) (redirectURL : string)
  : string * option error :=
  (* Authorization parameter from HTTP header *)
  let auth_header := http.Get (http.Header_ r) "Authorization" in
  if decide (auth_header = "") then
    ("", Some (headerMissing redirectURL))
  else
    (* get bearer token *)
    let auth_fields := Fields auth_header in
    match auth_fields with
    | [f0; f1] =>
      if decide (f0 = "Bearer") then (f1, None)
      else ("", Some (expectedBearer auth_header))
    | _ => ("", Some (expectedBearer auth_header))
    end.

(** The loop of [TranslateToTornjakRoles], from a given value of
    [translatedRoles]. *)
Fixpoint translateFrom (translatedRoles : slice string) (roles : list string)
  : slice string :=
  match roles with
  | [] => translatedRoles
  | role :: roles' =>
    match StaticRoleMappings !! role with
    | Some tornjakRole =>
      translateFrom (append translatedRoles tornjakRole) roles'
    | None => translateFrom translatedRoles roles'
    end
  end.

Definition TranslateToTornjakRoles (a : KeycloakAuthenticator)
    (roles : slice string) : slice string :=
  translateFrom Nil (to_list roles).

Definition AuthenticateRequest (a : KeycloakAuthenticator) (r : http.Request)
  : Prog (option UserInfo * option error) :=
  let '(token, err) := getToken r (jwksURL a) in
  match err with
  | Some err => Ret (None, Some err)
  | None =>
    (* parse token *)
    res ← call (jwt_ParseWithClaims token (jwks a) (audience a));
    match res with
    | inr err =>
      Ret (None, Some (Errorf Line115 ("Error parsing token: " +:+ Error err)))
    | inl jwt_token =>
      (* check token validity *)
      if negb (jwt.Valid jwt_token) then
        Ret (None, Some (Errorf Line120 "Token invalid"))
      else
        (* translate roles to tornjak roles *)
        let claims := jwt.Claims jwt_token in
        let tornjakRoles :=
          TranslateToTornjakRoles a
            (KeycloakClaim.Roles (KeycloakClaim.RealmAccess claims)) in
        Ret (Some {| Roles := tornjakRoles |}, None)
    end
  end.

(** ** The libraries, as the design document describes them

    The key-set cache (keyfunc) and the token parser (jwt) are imported
    libraries; their code is not part of the package. The definitions of
    this module follow sections 3, 4.1, 4.2 and 4.3 of the design document
    and give one [Handler] to run the package with. *)

Module Design.

Definition Key := string.

(** Modelled from the spec: SigningKeySet (section 3), not under src/:
    a mapping from key ID to verification key, one key per key ID. *)
Abbreviation SigningKeySet := (gmap string Key).

(** Modelled from the spec: the Key Set Cache of section 4.2 with its
    RefreshState (section 3), not under src/. [polling] holds the URL
    and the options of mode (b) and is [None] for a static document. *)
Record KeySetCache : Type := {
  keySet : SigningKeySet;
  polling : option (string * keyfunc.Options);
  lastSuccessfulRefresh : Z;
  lastRefreshAttempt : Z
}.

(** The rate-limit interval of a cache. *)
Definition rateLimit (c : KeySetCache) : Z :=
  match polling c with
  | Some (_, opts) => keyfunc.RefreshRateLimit opts
  | None => 0
  end.

Inductive LookupError : Type := UnknownKeyError.

Section Cache.
(** What the Key Source answers to a fetch made at a given time;
    [None] is a failed fetch. *)
Variable fetch : Z -> option SigningKeySet.

(** Modelled from the spec: the refresh algorithm of section 4.2. On
    success the key set is replaced and both timestamps move; on
    failure the key set stays and only the attempt is recorded. *)
Definition Refresh (now : Z) (c : KeySetCache) : KeySetCache :=
  match fetch now with
  | Some ks =>
    {| keySet := ks; polling := polling c;
       lastSuccessfulRefresh := now; lastRefreshAttempt := now |}
  | None =>
    {| keySet := keySet c; polling := polling c;
       lastSuccessfulRefresh := lastSuccessfulRefresh c;
       lastRefreshAttempt := now |}
  end.

(** A refresh may be triggered by a lookup: polling mode, and the
    rate-limit interval has passed since the last attempt. *)
Definition mayRefresh (now : Z) (c : KeySetCache) : bool :=
  match polling c with
  | Some _ => (rateLimit c <=? now - lastRefreshAttempt c)%Z
  | None => false
  end.

(** Modelled from the spec: [Lookup] of section 4.2. The answer, the
    cache afterwards, and whether a refresh was attempted. *)
Definition Lookup (now : Z) (keyID : string) (c : KeySetCache)
  : (Key + LookupError) * KeySetCache * bool :=
  match keySet c !! keyID with
  | Some k => (inl k, c, false)
  | None =>
    if mayRefresh now c then
      let c' := Refresh now c in
      (match keySet c' !! keyID with
       | Some k => inl k
       | None => inr UnknownKeyError
       end, c', true)
    else (inr UnknownKeyError, c, false)
  end.

(** What one lookup of a sequence did. *)
Record Outcome : Type := {
  at_time : Z;
  keyID_ : string;
  absent : bool;        (* the key ID was not in the set at that time *)
  refreshed : bool;     (* a refresh was attempted *)
  answer : Key + LookupError
}.

(** A sequence of lookups, each with the time it arrives at. *)
Fixpoint lookups (reqs : list (Z * string)) (c : KeySetCache)
  : list Outcome * KeySetCache :=
  match reqs with
  | [] => ([], c)
  | (now, keyID) :: reqs' =>
    let '(ans, c', re) := Lookup now keyID c in
    let o := {| at_time := now; keyID_ := keyID;
                absent := bool_decide (keySet c !! keyID = None);
                refreshed := re; answer := ans |} in
    let (os, c'') := lookups reqs' c' in
    (o :: os, c'')
  end.

(** The number of refresh attempts among the outcomes. *)
Definition refreshes (os : list Outcome) : nat :=
  length (filter (fun o => refreshed o = true) os).
(** What a lookup that attempts a refresh at [now] answers for [keyID]:
    the key of the fetched set, if the fetch succeeds and has one. *)
Definition served (now : Z) (keyID : string) : Key + LookupError :=
  match fetch now ≫= fun ks => ks !! keyID with
  | Some k => inl k
  | None => inr UnknownKeyError
  end.

(** A lookup of an absent key ID fails, unless it is the one that
    attempted a refresh and the key source served the key. *)
Definition accounted (o : Outcome) : Prop :=
  absent o = true ->
  if refreshed o then answer o = served (at_time o) (keyID_ o)
  else answer o = inr UnknownKeyError.

(** The cache is quiet for a request when the rate limit forbids a
    refresh at its time. *)
Definition quiet (c : KeySetCache) (req : Z * string) : Prop :=
  (fst req - lastRefreshAttempt c < rateLimit c)%Z.
End Cache.

(** Modelled from the spec: ParsedToken (section 3), not under src/: the
    raw token, its header, its claims, and which keys its signature
    verifies under with the declared algorithm. *)
Record ParsedToken : Type := {
  raw : string;
  alg : string;
  kid : string;
  claims : KeycloakClaim.t;
  signatureVerifies : Key -> bool
}.

(** The reasons for which verification fails (section 4.3). *)
Inductive VerifyError : Type :=
| MalformedToken
| UnknownKey
| SignatureFailure
| Expired
| AudienceMismatch.

Definition message (e : VerifyError) : string :=
  match e with
  | MalformedToken => "token is malformed"
  | UnknownKey => "the given key ID was not found in the JWKS"
  | SignatureFailure => "token signature is invalid"
  | Expired => "token is expired"
  | AudienceMismatch => "token has invalid audience"
  end.

(** The world the libraries live in: the clock, the identity provider
    (discovery and key source), the tokens that decode, and the caches
    made so far; a [JWKS] is an index into [caches]. *)
Record World : Type := {
  now : Z;
  discover : string -> option string;
  parseKeys : string -> option SigningKeySet;
  fetchKeys : string -> Z -> option SigningKeySet;
  decode : string -> option ParsedToken;
  caches : list KeySetCache
}.

Definition with_caches (w : World) (cs : list KeySetCache) : World :=
  {| now := now w; discover := discover w; parseKeys := parseKeys w;
     fetchKeys := fetchKeys w; decode := decode w; caches := cs |}.

(** The Key Source a cache refreshes from. *)
Definition sourceOf (w : World) (c : KeySetCache) : Z -> option SigningKeySet :=
  match polling c with
  | Some (url, _) => fetchKeys w url
  | None => fun _ => None
  end.

(** Modelled from the spec: steps 3 and 4 of [Verify] (section 4.3) on a
    decoded token: resolve the key, then check signature, expiry (in the
    future at verification time) and audience (contains the expected
    one). *)
Definition check (w : World) (p : ParsedToken)
    (expectedAudience : string) (c : KeySetCache)
  : option VerifyError * KeySetCache :=
  let '(ans, c', _) := Lookup (sourceOf w c) (now w) (kid p) c in
  match ans with
  | inr UnknownKeyError => (Some UnknownKey, c')
  | inl key =>
    if negb (signatureVerifies p key) then (Some SignatureFailure, c')
    else if negb (now w <? KeycloakClaim.ExpiresAt (claims p))%Z
      then (Some Expired, c')
    else if negb (bool_decide (expectedAudience ∈ KeycloakClaim.Audience (claims p)))
      then (Some AudienceMismatch, c')
    else (None, c')
  end.

(** Modelled from the spec: steps 2 to 5 of [Verify] (section 4.3), not
    under src/, as the answer of [jwt.ParseWithClaims]. *)
Definition Verify (tokenString : string) (keyFunc : option JWKS)
    (expectedAudience : string) (w : World) : (jwt.Token + error) * World :=
  match decode w tokenString with
  | None => (inr (Errorf Library (message MalformedToken)), w)
  | Some p =>
    match keyFunc ≫= fun j => (fun c => (j, c)) <$> caches w !! j with
    | None => (inr (Errorf Library (message UnknownKey)), w)
    | Some (j, c) =>
      let (res, c') := check w p expectedAudience c in
      let w' := with_caches w (<[j := c']> (caches w)) in
      match res with
      | Some e => (inr (Errorf Library (message e)), w')
      | None => (inl {| jwt.Valid := true; jwt.Claims := claims p |}, w')
      end
    end
  end.

(** Modelled from the spec: the Key Source of section 4.1, not under
    src/: a new cache from a static document (a) or a first fetch (b). *)
Definition newCache (ks : SigningKeySet)
    (mode : option (string * keyfunc.Options)) (w : World) : JWKS * World :=
  let c := {| keySet := ks; polling := mode;
              lastSuccessfulRefresh := now w; lastRefreshAttempt := now w |} in
  (length (caches w), with_caches w (caches w ++ [c])).

Definition keySourceError : error := Errorf Library "key source failed".

(** The libraries of the design document as a handler. *)
Definition library : Handler World := fun X c =>
  match c in Call X return World -> X * World with
  | discovery_NewClient issuerURL => fun w =>
    match discover w issuerURL with
    | Some uri =>
      (inl {| discovery.Metadata := {| discovery.JWKSURI := uri |} |}, w)
    | None => (inr (Errorf Library "discovery failed"), w)
    end
  | keyfunc_Get jwksURL options => fun w =>
    match fetchKeys w jwksURL (now w) with
    | Some ks =>
      let (j, w') := newCache ks (Some (jwksURL, options)) w in (inl j, w')
    | None => (inr keySourceError, w)
    end
  | keyfunc_NewJSON jwksBytes => fun w =>
    match parseKeys w jwksBytes with
    | Some ks => let (j, w') := newCache ks None w in (inl j, w')
    | None => (inr keySourceError, w)
    end
  | jwt_ParseWithClaims tokenString keyFunc withAudience =>
    Verify tokenString keyFunc withAudience
  end.

End Design.

(** ** Vocabulary of the statements *)

(** The call by which [getJWKeyFunc] makes the key-set cache. *)
Definition keySourceCall (httpjwks : bool) (jwksInfo : string)
  : Call (JWKS + error) :=
  if httpjwks then keyfunc_Get jwksInfo pollingOptions
  else keyfunc_NewJSON jwksInfo.

Section Answers.
Context {W : Type} (h : Handler W).

(** The answer of the parser to the token of a request. *)
Definition parserAnswer (a : KeycloakAuthenticator) (token : string) (w : W)
  : (jwt.Token + error) * W :=
  h _ (jwt_ParseWithClaims token (jwks a) (audience a)) w.

(** What AuthenticateRequest returns from a parsed token. *)
Definition afterParse (a : KeycloakAuthenticator) (res : jwt.Token + error)
  : option UserInfo * option error :=
  match res with
  | inr err =>
    (None, Some (Errorf Line115 ("Error parsing token: " +:+ Error err)))
  | inl jwt_token =>
    if jwt.Valid jwt_token then
      (Some {| Roles := TranslateToTornjakRoles a
                 (KeycloakClaim.Roles (KeycloakClaim.RealmAccess (jwt.Claims jwt_token))) |},
       None)
    else (None, Some (Errorf Line120 "Token invalid"))
  end.

End Answers.

(** What the configuration is: the arguments of NewKeycloakAuthenticator. *)
Record Configuration : Type := {
  useHTTPKeySource : bool;
  issuerURL_ : string;
  audience_ : string
}.

(** An option of the key-set cache is recognized by the configuration when
    some configuration, with some answers of the libraries, has a cache made
    with another value than the default. *)
Definition recognized (option : keyfunc.Options -> Z) (default : Z) : Prop :=
  exists (cfg : Configuration) (W : Type) (h : Handler W) (w : W) (o : keyfunc.Options),
    o ∈ cacheOptions h
          (NewKeycloakAuthenticator (useHTTPKeySource cfg) (issuerURL_ cfg) (audience_ cfg)) w
    /\ option o <> default.

(** A cache made with the options of the package, last refreshed at time 0,
    against a key source that serves [ks]. *)
Definition pollingCache (ks0 : gmap string Design.Key) : Design.KeySetCache := {|
  Design.keySet := ks0;
  Design.polling := Some ("https://idp/certs", pollingOptions);
  Design.lastSuccessfulRefresh := 0;
  Design.lastRefreshAttempt := 0
|}.

(** A world for the scenario of the design document: audience tornjak, a
    static key set with the key kid1, and three tokens signed by it: a good
    one, an expired one, and one for another audience. *)
Definition scenarioToken (raw : string) (aud : list string) (exp : Z)
  : Design.ParsedToken := {|
  Design.raw := raw; Design.alg := "RS256"; Design.kid := "kid1";
  Design.claims := {|
    KeycloakClaim.RealmAccess :=
      {| KeycloakClaim.Roles := Elems ["tornjak-admin-realm-role"] |};
    KeycloakClaim.Issuer := "https://idp/realms/tornjak";
    KeycloakClaim.Audience := aud;
    KeycloakClaim.ExpiresAt := exp |};
  Design.signatureVerifies := fun key => bool_decide (key = "key1")
|}.

Definition scenario : Design.World := {|
  Design.now := 1700000000;
  Design.discover := fun _ => Some "https://idp/certs";
  Design.parseKeys := fun _ => Some {[ "kid1" := "key1" ]};
  Design.fetchKeys := fun _ _ => Some {[ "kid1" := "key1" ]};
  Design.decode := fun raw =>
    if decide (raw = "good") then Some (scenarioToken raw ["tornjak"] 1700003600)
    else if decide (raw = "expired") then Some (scenarioToken raw ["tornjak"] 1699999999)
    else if decide (raw = "other") then Some (scenarioToken raw ["account"] 1700003600)
    else None;
  Design.caches := [ {| Design.keySet := {[ "kid1" := "key1" ]};
                        Design.polling := None;
                        Design.lastSuccessfulRefresh := 1690000000;
                        Design.lastRefreshAttempt := 1690000000 |} ]
|}.

Definition scenarioAuthenticator : KeycloakAuthenticator :=
  {| jwks := Some 0; jwksURL := "https://idp/certs"; audience := "tornjak" |}.

(** A string without any of the six ASCII white-space bytes. *)
Definition noSpace (s : string) : bool :=
  every (fun c => negb (asciiSpace c)) s.

(** A field of [Fields]: not empty, no white-space byte. *)
Definition goodField (f : string) : Prop := f <> "" /\ noSpace f = true.

(** The first [k] bytes of [s], as far as there are any, are not ASCII
    (continuation bytes are such). *)
Fixpoint highPrefix (k : nat) (s : string) : bool :=
  match k, s with
  | S k', String c s' => (0x80 <=? byte_val c)%N && highPrefix k' s'
  | _, _ => true
  end.

(** Inputs for the checks on concrete values. *)
Definition tab : string := String (ascii_of_nat 9) "".
Definition nbsp : string := String (ascii_of_nat 194) (String (ascii_of_nat 160) "").
Definition ideographic_space : string :=
  String (ascii_of_nat 227) (String (ascii_of_nat 128) (String (ascii_of_nat 128) "")).

Definition request (auth : list string) : http.Request := {|
  http.Method := "GET"; http.URL := "/api/agent/list"; http.Proto := "HTTP/1.1";
  http.Header_ := {[ "Authorization" := auth ]};
  http.Body := ""; http.RemoteAddr := "10.0.0.1:4000"
|}.

(** ** Checks on concrete inputs *)

Example Fields_empty : Fields "" = [].
Proof. reflexivity. Qed.

Example Fields_bearer_tok : Fields "Bearer tok" = ["Bearer"; "tok"].
Proof. reflexivity. Qed.

Example Fields_unicode :
  Fields (nbsp +:+ "Bearer" +:+ ideographic_space +:+ tab +:+ "tok" +:+ nbsp)
  = ["Bearer"; "tok"].
Proof. reflexivity. Qed.

Example getToken_ok :
  getToken (request ["Bearer abc.def.ghi"]) "https://idp/certs"
  = ("abc.def.ghi", None).
Proof. vm_compute. reflexivity. Qed.

Example translate_mixed :
  translateFrom Nil ["tornjak-admin-realm-role"; "unknown-role"] = Elems ["admin"].
Proof. vm_compute. reflexivity. Qed.

(** ** Role translation *)

Section Translate.

Lemma to_list_append {A} (s : slice A) x : to_list (append s x) = to_list s ++ [x].
Proof. reflexivity. Qed.

(** The loop keeps what was translated so far and adds the images of the
    mapped roles, in order. *)
Lemma translateFrom_to_list acc roles :
  to_list (translateFrom acc roles)
  = to_list acc ++ omap (fun role => StaticRoleMappings !! role) roles.
Proof.
  revert acc. induction roles as [|role roles IH]; intros acc; simpl.
  - by rewrite app_nil_r.
  - destruct (StaticRoleMappings !! role) as [tornjakRole|] eqn:Hrole; simpl.
    + rewrite IH, to_list_append. by rewrite <- app_assoc.
    + apply IH.
Qed.

(** The result stays nil as long as no role is mapped. *)
Lemma translateFrom_unmapped roles :
  Forall (fun role => StaticRoleMappings !! role = None) roles ->
  translateFrom Nil roles = Nil.
Proof.
  induction 1 as [|role roles Hrole _ IH]; simpl; [done|].
  by rewrite Hrole.
Qed.

End Translate.

(** C3. For every sequence of provider role names, TranslateToTornjakRoles
    returns the images under StaticRoleMappings of the entries that are in
    the mapping, in input order; entries that are not are dropped, there is
    no error and no deduplication. In particular the translation of the
    empty sequence is empty, that of the viewer realm role is viewer, that
    of the admin realm role followed by an unknown role is admin, and a
    role given twice is translated twice. *)
Theorem TranslateToTornjakRoles_spec (a : KeycloakAuthenticator) :
  (forall roles : slice string,
     to_list (TranslateToTornjakRoles a roles)
     = omap (fun role => StaticRoleMappings !! role) (to_list roles))
  /\ to_list (TranslateToTornjakRoles a (Elems [])) = []
  /\ to_list (TranslateToTornjakRoles a (Elems ["tornjak-viewer-realm-role"]))
     = ["viewer"]
  /\ to_list (TranslateToTornjakRoles a
                (Elems ["tornjak-admin-realm-role"; "unknown-role"]))
     = ["admin"]
  /\ to_list (TranslateToTornjakRoles a
                (Elems ["tornjak-admin-realm-role"; "tornjak-admin-realm-role"]))
     = ["admin"; "admin"].
Proof.
  split; [|repeat split; vm_compute; reflexivity].
  intros roles. unfold TranslateToTornjakRoles.
  by rewrite translateFrom_to_list.
Qed.

(** ** The Authorization header *)

Section GetToken.

(** [getToken] by cases on the header value. *)
Lemma getToken_cases r redirectURL :
  let auth_header := http.Get (http.Header_ r) "Authorization" in
  (auth_header = "" /\ getToken r redirectURL = ("", Some (headerMissing redirectURL)))
  \/ (auth_header <> "" /\ (exists t, Fields auth_header = ["Bearer"; t]
                                  /\ getToken r redirectURL = (t, None)))
  \/ (auth_header <> "" /\ ~ (exists t, Fields auth_header = ["Bearer"; t])
      /\ getToken r redirectURL = ("", Some (expectedBearer auth_header))).
Proof.
  intros auth_header. unfold getToken. fold auth_header.
  destruct (decide (auth_header = "")) as [Hempty|Hne]; [by left|right].
  destruct (Fields auth_header) as [|f0 [|f1 [|f2 fs]]] eqn:Hf;
    try (right; split; [done|split; [|done]]; intros [t Ht]; discriminate).
  destruct (decide (f0 = "Bearer")) as [->|Hf0].
  - left. split; [done|]. by exists f1.
  - right. split; [done|split; [|done]]. intros [t Ht]. congruence.
Qed.

End GetToken.

(** *** Headers written with ASCII white space *)

Section FieldsAscii.

Lemma append_cons c (u v : string) : String c u +:+ v = String c (u +:+ v).
Proof. reflexivity. Qed.

Lemma append_nil_l (v : string) : "" +:+ v = v.
Proof. reflexivity. Qed.

Lemma append_nil_r (u : string) : u +:+ "" = u.
Proof. induction u as [|c u IH]; [done|]. by rewrite append_cons, IH. Qed.

Lemma append_assoc (u v w : string) : (u +:+ v) +:+ w = u +:+ (v +:+ w).
Proof.
  induction u as [|c u IH]; [done|]. by rewrite !append_cons, IH.
Qed.

(** One step of the scan on an ASCII byte. *)
Lemma fieldsFrom_ascii c s cur :
  (byte_val c <? 0x80)%N = true ->
  fieldsFrom (String c s) 0 cur
  = if IsSpace (byte_val c) then flush cur ++ fieldsFrom s 0 None
    else fieldsFrom s 0 (extend cur c).
Proof.
  intros Hascii. cbn [fieldsFrom]. unfold DecodeRuneInString.
  rewrite Hascii. reflexivity.
Qed.

Lemma fieldsFrom_space c s cur :
  asciiSpace c = true ->
  fieldsFrom (String c s) 0 cur = flush cur ++ fieldsFrom s 0 None.
Proof.
  intros [Hascii Hsp]%andb_true_iff. by rewrite fieldsFrom_ascii, Hsp.
Qed.

Lemma fieldsFrom_graphic c s cur :
  asciiGraphic c = true ->
  fieldsFrom (String c s) 0 cur = fieldsFrom s 0 (extend cur c).
Proof.
  intros [Hascii Hsp%negb_true_iff]%andb_true_iff.
  by rewrite fieldsFrom_ascii, Hsp.
Qed.

(** White space between fields is passed over. *)
Lemma fieldsFrom_spaces ws s :
  every asciiSpace ws = true ->
  fieldsFrom (ws +:+ s) 0 None = fieldsFrom s 0 None.
Proof.
  induction ws as [|c ws IH]; [done|]. cbn [every].
  intros [Hc Hws]%andb_true_iff.
  rewrite append_cons, fieldsFrom_space by done. by apply IH.
Qed.

(** The bytes of a word join the field being read. *)
Lemma fieldsFrom_word_more w s u :
  every asciiGraphic w = true ->
  fieldsFrom (w +:+ s) 0 (Some u) = fieldsFrom s 0 (Some (u +:+ w)).
Proof.
  revert u. induction w as [|c w IH]; intros u; cbn [every].
  - intros _. by rewrite append_nil_l, append_nil_r.
  - intros [Hc Hw]%andb_true_iff.
    rewrite append_cons, fieldsFrom_graphic by done.
    unfold extend. cbn [default]. rewrite IH by done.
    by rewrite append_assoc, append_cons, append_nil_l.
Qed.

Lemma fieldsFrom_word w s :
  w <> "" -> every asciiGraphic w = true ->
  fieldsFrom (w +:+ s) 0 None = fieldsFrom s 0 (Some w).
Proof.
  destruct w as [|c w]; [done|]. cbn [every].
  intros _ [Hc Hw]%andb_true_iff.
  rewrite append_cons, fieldsFrom_graphic by done.
  unfold extend. cbn [default]. rewrite append_nil_l.
  by rewrite fieldsFrom_word_more, append_cons, append_nil_l.
Qed.

(** White space ends the field being read. *)
Lemma fieldsFrom_end ws s u :
  ws <> "" -> every asciiSpace ws = true ->
  fieldsFrom (ws +:+ s) 0 (Some u) = u :: fieldsFrom s 0 None.
Proof.
  destruct ws as [|c ws]; [done|]. cbn [every].
  intros _ [Hc Hws]%andb_true_iff.
  rewrite append_cons, fieldsFrom_space by done.
  cbn [flush app]. f_equal. by apply fieldsFrom_spaces.
Qed.

Lemma fieldsFrom_trailing ws u :
  every asciiSpace ws = true -> fieldsFrom ws 0 (Some u) = [u].
Proof.
  destruct ws as [|c ws]; [done|]. cbn [every].
  intros [Hc Hws]%andb_true_iff.
  rewrite fieldsFrom_space by done. cbn [flush app]. f_equal.
  clear c Hc. induction ws as [|c ws IH]; [done|].
  cbn [every] in Hws. apply andb_true_iff in Hws as [Hc Hws].
  rewrite fieldsFrom_space by done. by apply IH.
Qed.

(** Bearer and a token, with any ASCII white space around and between. *)
Lemma Fields_bearer_ascii ws1 ws2 ws3 t :
  every asciiSpace ws1 = true -> every asciiSpace ws2 = true ->
  every asciiSpace ws3 = true -> ws2 <> "" ->
  t <> "" -> every asciiGraphic t = true ->
  Fields (ws1 +:+ "Bearer" +:+ ws2 +:+ t +:+ ws3) = ["Bearer"; t].
Proof.
  intros H1 H2 H3 Hne2 Hnet Ht. unfold Fields.
  rewrite fieldsFrom_spaces by done.
  rewrite (fieldsFrom_word "Bearer") by done.
  rewrite fieldsFrom_end by done.
  rewrite fieldsFrom_word by done.
  by rewrite fieldsFrom_trailing.
Qed.

(** Such a header is accepted, and the token is what [getToken] returns. *)
Lemma getToken_bearer_ascii r redirectURL ws1 ws2 ws3 t :
  http.Get (http.Header_ r) "Authorization"
  = ws1 +:+ "Bearer" +:+ ws2 +:+ t +:+ ws3 ->
  every asciiSpace ws1 = true -> every asciiSpace ws2 = true ->
  every asciiSpace ws3 = true -> ws2 <> "" ->
  t <> "" -> every asciiGraphic t = true ->
  getToken r redirectURL = (t, None).
Proof.
  intros Hhdr H1 H2 H3 Hne2 Hnet Ht.
  pose proof (Fields_bearer_ascii ws1 ws2 ws3 t H1 H2 H3 Hne2 Hnet Ht) as Hf.
  rewrite <- Hhdr in Hf.
  destruct (getToken_cases r redirectURL)
    as [[He _]|[(_ & t' & Ht' & ->)|(_ & Hno & _)]].
  - rewrite He in Hf. discriminate.
  - congruence.
  - destruct Hno. by exists t.
Qed.

End FieldsAscii.

(** C9. For every Authorization header value whose white-space-delimited
    fields (any Unicode white space; leading, trailing and repeated
    separators ignored) are exactly Bearer and t, getToken succeeds and
    returns t. *)
Theorem getToken_bearer_fields (r : http.Request) (redirectURL t : string) :
  Fields (http.Get (http.Header_ r) "Authorization") = ["Bearer"; t] ->
  getToken r redirectURL = (t, None).
Proof.
  intros Hf.
  destruct (getToken_cases r redirectURL) as [[He _]|[(_ & t' & Ht' & ->)|(_ & Hno & _)]].
  - rewrite He in Hf. discriminate.
  - congruence.
  - destruct Hno. by exists t.
Qed.

(** The value of two spaces, Bearer, a tab, tok and two spaces is accepted,
    and so is one with a no-break space and an ideographic space. *)
Lemma getToken_bearer_fields_witness :
  getToken (request ["  Bearer" +:+ tab +:+ "tok  "]) "https://idp/certs"
    = ("tok", None)
  /\ getToken (request [nbsp +:+ "Bearer" +:+ ideographic_space +:+ "tok"])
       "https://idp/certs" = ("tok", None).
Proof.
  split; apply getToken_bearer_fields; vm_compute; reflexivity.
Defined.

(** C2. For every Authorization header value that is empty, or whose
    fields are not exactly two with the first one Bearer,
    AuthenticateRequest returns, without any call to a library (no token
    parsing, no signature verification), no UserInfo and an error of kind
    MissingOrMalformedCredential; for the empty (missing) header the message
    of that error is the hint that names where to obtain a token. *)
Theorem AuthenticateRequest_malformed_header
    (a : KeycloakAuthenticator) (r : http.Request) :
  let auth_header := http.Get (http.Header_ r) "Authorization" in
  (auth_header = "" \/ ~ (exists t, Fields auth_header = ["Bearer"; t])) ->
  exists e,
    AuthenticateRequest a r = Ret (None, Some e)
    /\ kind_of e = Some MissingOrMalformedCredential
    /\ (auth_header = "" ->
        Error e = "Authorization header missing. Please obtain access token here: "
                  +:+ jwksURL a).
Proof.
  intros auth_header Hbad. unfold AuthenticateRequest.
  destruct (getToken_cases r (jwksURL a))
    as [[He ->]|[(Hne & t & Ht & _)|(Hne & _ & ->)]].
  - by eexists.
  - destruct Hbad as [He|Hno]; [done|]. destruct Hno. by exists t.
  - eexists. split; [reflexivity|]. split; [reflexivity|]. intros He. done.
Qed.

(** The four header values of the design document: empty, Bearer alone,
    Basic abc, and Bearer a b. *)
Lemma AuthenticateRequest_malformed_header_witness :
  let a := {| jwks := Some 0; jwksURL := "https://idp/certs"; audience := "tornjak" |} in
  let rejected v := exists e,
    AuthenticateRequest a (request [v]) = Ret (None, Some e)
    /\ kind_of e = Some MissingOrMalformedCredential in
  rejected "" /\ rejected "Bearer" /\ rejected "Basic abc" /\ rejected "Bearer a b".
Proof.
  intros a rejected.
  assert (Hnot : forall v f,
            Fields (http.Get (http.Header_ (request [v])) "Authorization") = f ->
            (forall t, f <> ["Bearer"; t]) -> rejected v).
  { intros v f Hf Hno.
    destruct (AuthenticateRequest_malformed_header a (request [v])) as (e & ? & ? & _).
    - right. intros [t Ht]. rewrite Hf in Ht. by apply (Hno t).
    - by exists e. }
  repeat split.
  - destruct (AuthenticateRequest_malformed_header a (request [""])) as (e & ? & ? & _).
    + left. vm_compute. reflexivity.
    + by exists e.
  - apply (Hnot _ ["Bearer"]); [vm_compute; reflexivity|discriminate].
  - apply (Hnot _ ["Basic"; "abc"]); [vm_compute; reflexivity|discriminate].
  - apply (Hnot _ ["Bearer"; "a"; "b"]); [vm_compute; reflexivity|discriminate].
Defined.

(** ** AuthenticateRequest against arbitrary libraries *)

Section Authenticate.
Context {W : Type} (h : Handler W).

(** A run of AuthenticateRequest: the error of [getToken] if there is
    one, and otherwise one call to the parser, whose answer decides. *)
Lemma run_AuthenticateRequest a r w :
  run h (AuthenticateRequest a r) w =
  match getToken r (jwksURL a) with
  | (_, Some err) => ((None, Some err), w)
  | (token, None) =>
    let (res, w') := parserAnswer h a token w in (afterParse a res, w')
  end.
Proof.
  unfold AuthenticateRequest, parserAnswer.
  destruct (getToken r (jwksURL a)) as [token [err|]]; [reflexivity|].
  simpl. destruct (h _ _ w) as [[jwt_token|err] w']; simpl; [|reflexivity].
  by destruct (jwt.Valid jwt_token).
Qed.

Lemma afterParse_not_both a res :
  match afterParse a res with
  | (Some _, None) | (None, Some _) => True
  | _ => False
  end.
Proof.
  destruct res as [jwt_token|err]; simpl; [|done].
  by destruct (jwt.Valid jwt_token).
Qed.

End Authenticate.

(** C5. AuthenticateRequest returns the first error met, and a UserInfo
    only when everything succeeds. The error of getToken is returned as it
    is. An error of the token parser is returned as the
    TokenVerificationFailed of section 7, with no other wrapping: its message
    is the parser's message, unchanged, after the words Error parsing token.
    A token that parses but is not valid gives the error Token invalid.
    Otherwise the UserInfo with the translated roles is returned with a nil
    error. A UserInfo and an error are never returned together, nor is
    neither. *)
Theorem AuthenticateRequest_outcome {W : Type} (h : Handler W)
    (a : KeycloakAuthenticator) (r : http.Request) (w : W) :
  let out := fst (run h (AuthenticateRequest a r) w) in
  match getToken r (jwksURL a) with
  | (_, Some err) => out = (None, Some err)
  | (token, None) =>
    match fst (h _ (jwt_ParseWithClaims token (jwks a) (audience a)) w) with
    | inr err =>
      exists e, out = (None, Some e)
                /\ kind_of e = Some TokenVerificationFailed
                /\ Error e = "Error parsing token: " +:+ Error err
    | inl jwt_token =>
      if jwt.Valid jwt_token then
        out = (Some {| Roles := TranslateToTornjakRoles a
                        (KeycloakClaim.Roles
                           (KeycloakClaim.RealmAccess (jwt.Claims jwt_token))) |},
               None)
      else
        exists e, out = (None, Some e)
                  /\ kind_of e = Some TokenVerificationFailed
                  /\ Error e = "Token invalid"
    end
  end
  /\ match out with
     | (Some _, None) | (None, Some _) => True
     | _ => False
     end.
Proof.
  intros out. subst out. rewrite run_AuthenticateRequest.
  destruct (getToken r (jwksURL a)) as [token [err|]]; [by split|].
  unfold parserAnswer.
  destruct (h _ _ w) as [res w']; simpl. split.
  - destruct res as [jwt_token|err]; simpl; [|by eexists].
    destruct (jwt.Valid jwt_token); [done|by eexists].
  - apply afterParse_not_both.
Qed.

(** The parser's error token is expired, as AuthenticateRequest returns it. *)
Example AuthenticateRequest_parser_error :
  let first := Errorf Library "token is expired" in
  fst (run (fixedLibrary (inr first) (inr first) (inr first))
         (AuthenticateRequest scenarioAuthenticator (request ["Bearer abc.def.ghi"])) tt)
  = (None, Some (Errorf Line115 "Error parsing token: token is expired")).
Proof. vm_compute. reflexivity. Qed.

(** C6. AuthenticateRequest reads the Authorization header of the request
    and nothing else: two requests with the same Authorization header
    value are the same program, and run against the same libraries from
    the same state they give the same UserInfo, the same error and the
    same state afterwards. *)
Theorem AuthenticateRequest_reads_only_authorization
    (a : KeycloakAuthenticator) (r1 r2 : http.Request) :
  http.Get (http.Header_ r1) "Authorization"
  = http.Get (http.Header_ r2) "Authorization" ->
  AuthenticateRequest a r1 = AuthenticateRequest a r2
  /\ forall (W : Type) (h : Handler W) (w : W),
       run h (AuthenticateRequest a r1) w = run h (AuthenticateRequest a r2) w.
Proof.
  intros Hauth.
  assert (Heq : AuthenticateRequest a r1 = AuthenticateRequest a r2).
  { unfold AuthenticateRequest, getToken. by rewrite Hauth. }
  split; [done|]. intros W h w. by rewrite Heq.
Qed.

(** Two requests that differ in method, URL, body, peer address and in
    their other headers. *)
Lemma AuthenticateRequest_reads_only_authorization_witness :
  let a := {| jwks := Some 0; jwksURL := "https://idp/certs"; audience := "tornjak" |} in
  let r1 := request ["Bearer abc.def.ghi"] in
  let r2 := {| http.Method := "POST"; http.URL := "/api/tornjak/clusters";
               http.Proto := "HTTP/2.0";
               http.Header_ := {[ "Authorization" := ["Bearer abc.def.ghi"; "Basic x"];
                                  "Cookie" := ["session=1"] ]};
               http.Body := "{}"; http.RemoteAddr := "192.0.2.7:555" |} in
  r1 <> r2
  /\ AuthenticateRequest a r1 = AuthenticateRequest a r2.
Proof.
  intros a r1 r2. split; [discriminate|].
  apply AuthenticateRequest_reads_only_authorization. vm_compute. reflexivity.
Defined.

(** C10. When the parser answers with a valid token whose realm roles are
    none, or are all absent from StaticRoleMappings, AuthenticateRequest
    returns a UserInfo whose Roles is the nil slice, and a nil error. *)
Theorem AuthenticateRequest_no_mapped_role {W : Type} (h : Handler W)
    (a : KeycloakAuthenticator) (r : http.Request) (w : W)
    (token : string) (jwt_token : jwt.Token) :
  getToken r (jwksURL a) = (token, None) ->
  fst (h _ (jwt_ParseWithClaims token (jwks a) (audience a)) w) = inl jwt_token ->
  jwt.Valid jwt_token = true ->
  Forall (fun role => StaticRoleMappings !! role = None)
    (to_list (KeycloakClaim.Roles (KeycloakClaim.RealmAccess (jwt.Claims jwt_token)))) ->
  fst (run h (AuthenticateRequest a r) w) = (Some {| Roles := Nil |}, None).
Proof.
  intros Htok Hparse Hvalid Hroles.
  rewrite run_AuthenticateRequest, Htok. unfold parserAnswer.
  destruct (h _ _ w) as [res w']. simpl in *. subst res. simpl.
  rewrite Hvalid. unfold TranslateToTornjakRoles.
  by rewrite translateFrom_unmapped.
Qed.

(** A valid token with no realm role, and one whose only role is unknown
    to the mapping. *)
Lemma AuthenticateRequest_no_mapped_role_witness :
  let a := {| jwks := Some 0; jwksURL := "https://idp/certs"; audience := "tornjak" |} in
  let r := request ["Bearer abc.def.ghi"] in
  let parsed roles := {|
    jwt.Valid := true;
    jwt.Claims := {| KeycloakClaim.RealmAccess := {| KeycloakClaim.Roles := roles |};
                     KeycloakClaim.Issuer := "https://idp/realms/tornjak";
                     KeycloakClaim.Audience := ["tornjak"];
                     KeycloakClaim.ExpiresAt := 1700003600 |} |} in
  let h roles := fixedLibrary (inr (Errorf Library "unused")) (inl 0) (inl (parsed roles)) in
  fst (run (h (Elems [])) (AuthenticateRequest a r) tt) = (Some {| Roles := Nil |}, None)
  /\ fst (run (h (Elems ["offline_access"; "uma_authorization"]))
            (AuthenticateRequest a r) tt) = (Some {| Roles := Nil |}, None).
Proof.
  intros a r parsed h.
  split.
  - apply (AuthenticateRequest_no_mapped_role (h (Elems [])) a r tt
             "abc.def.ghi" (parsed (Elems [])));
      [vm_compute; reflexivity..|apply Forall_nil_2].
  - apply (AuthenticateRequest_no_mapped_role
             (h (Elems ["offline_access"; "uma_authorization"])) a r tt
             "abc.def.ghi" (parsed (Elems ["offline_access"; "uma_authorization"])));
      [vm_compute; reflexivity..|].
    repeat apply Forall_cons_2; [vm_compute; reflexivity..|apply Forall_nil_2].
Defined.

(** ** Construction *)

Section Construction.
Context {W : Type} (h : Handler W).

Lemma run_getJWKeyFunc httpjwks jwksInfo w :
  run h (getJWKeyFunc httpjwks jwksInfo) w =
  let (res, w') := h _ (keySourceCall httpjwks jwksInfo) w in
  (match res with
   | inl jwks => (Some jwks, None)
   | inr err =>
     (None, Some (Errorf (if httpjwks then Line41 else Line47)
        ("Could not create Keyfunc for " +:+ (if httpjwks then "url " else "json ")
           +:+ jwksInfo +:+ ": " +:+ Error err)))
   end, w').
Proof.
  unfold getJWKeyFunc, keySourceCall.
  destruct httpjwks; simpl; destruct (h _ _ w) as [[jwks|err] w']; reflexivity.
Qed.

Lemma trace_getJWKeyFunc httpjwks jwksInfo w :
  trace h (getJWKeyFunc httpjwks jwksInfo) w
  = [Called (keySourceCall httpjwks jwksInfo)].
Proof.
  unfold getJWKeyFunc, keySourceCall.
  destruct httpjwks; simpl; destruct (h _ _ w) as [[jwks|err] w']; reflexivity.
Qed.

(** Running [p] and then [f] runs [f] on the result of [p]. *)
Lemma run_bind {A B} (p : Prog A) (f : A -> Prog B) w :
  run h (bind p f) w = let (x, w') := run h p w in run h (f x) w'.
Proof.
  revert w. induction p as [x|X c k IH]; intros w; simpl; [reflexivity|].
  destruct (h X c w) as [x w']. apply IH.
Qed.

Lemma trace_bind {A B} (p : Prog A) (f : A -> Prog B) w :
  trace h (bind p f) w
  = trace h p w ++ (let (x, w') := run h p w in trace h (f x) w').
Proof.
  revert w. induction p as [x|X c k IH]; intros w; simpl; [reflexivity|].
  destruct (h X c w) as [x w']. simpl. by rewrite IH.
Qed.

Lemma cacheOptions_getJWKeyFunc httpjwks jwksInfo w :
  cacheOptions h (getJWKeyFunc httpjwks jwksInfo) w
  = if httpjwks then [pollingOptions] else [].
Proof.
  unfold cacheOptions. rewrite trace_getJWKeyFunc. by destruct httpjwks.
Qed.

Lemma cacheOptions_NewKeycloakAuthenticator httpjwks issuerURL audience w :
  cacheOptions h (NewKeycloakAuthenticator httpjwks issuerURL audience) w
  = match fst (h _ (discovery_NewClient issuerURL) w) with
    | inl _ => if httpjwks then [pollingOptions] else []
    | inr _ => []
    end.
Proof.
  unfold cacheOptions, NewKeycloakAuthenticator. simpl.
  destruct (h _ _ w) as [[oidcClient|err] w1]; simpl; [|reflexivity].
  change (mbind ?f ?p) with (bind p f). rewrite trace_bind, trace_getJWKeyFunc.
  rewrite run_getJWKeyFunc.
  destruct (h _ _ w1) as [[jwks|err] w2]; simpl; by destruct httpjwks.
Qed.

End Construction.

(** C8. If OIDC discovery against the issuer URL fails, or if it succeeds
    and making the key set fails (the static document does not parse, the
    first fetch fails), NewKeycloakAuthenticator returns a SetupError and a
    nil authenticator; an authenticator is returned, with a nil error, only
    when discovery and the making of the key set both succeed. *)
Theorem NewKeycloakAuthenticator_setup {W : Type} (h : Handler W)
    (httpjwks : bool) (issuerURL audience : string) (w : W) :
  let out := fst (run h (NewKeycloakAuthenticator httpjwks issuerURL audience) w) in
  let (found, w1) := h _ (discovery_NewClient issuerURL) w in
  match found with
  | inr _ => exists e, out = (None, Some e) /\ kind_of e = Some SetupError
  | inl oidcClient =>
    let jwksURL := discovery.JWKSURI (discovery.Metadata oidcClient) in
    match fst (h _ (keySourceCall httpjwks jwksURL) w1) with
    | inr _ => exists e, out = (None, Some e) /\ kind_of e = Some SetupError
    | inl jwks =>
      out = (Some {| jwks := Some jwks; jwksURL := jwksURL; audience := audience |},
             None)
    end
  end.
Proof.
  intros out. subst out. unfold NewKeycloakAuthenticator. simpl.
  destruct (h _ _ w) as [[oidcClient|err] w1]; simpl; [|by eexists].
  change (mbind ?f ?p) with (bind p f). rewrite run_bind, run_getJWKeyFunc.
  destruct (h _ _ w1) as [[jwks|err] w2]; simpl; [reflexivity|].
  eexists. split; [reflexivity|]. by destruct httpjwks.
Qed.

(** C7 (as amended). The refresh interval, the refresh rate limit and the
    refresh timeout are not options of the configuration, which consists of
    the key-source mode, the issuer URL and the audience; they are
    constants. In polling mode every key-set cache is made with a refresh
    interval of 1 hour, a rate limit of 5 minutes and a timeout of 10
    seconds (in nanoseconds below), refreshing on unknown key IDs; in
    static mode no such option is passed. *)
Theorem polling_options_fixed :
  keyfunc.RefreshInterval pollingOptions = 3600000000000%Z
  /\ keyfunc.RefreshRateLimit pollingOptions = 300000000000%Z
  /\ keyfunc.RefreshTimeout pollingOptions = 10000000000%Z
  /\ keyfunc.RefreshUnknownKID pollingOptions = true
  /\ (forall (W : Type) (h : Handler W) (w : W) (jwksInfo : string),
        cacheOptions h (getJWKeyFunc true jwksInfo) w = [pollingOptions]
        /\ cacheOptions h (getJWKeyFunc false jwksInfo) w = [])
  /\ (forall (W : Type) (h : Handler W) (w : W) (cfg : Configuration),
        Forall (fun o => o = pollingOptions)
          (cacheOptions h
             (NewKeycloakAuthenticator (useHTTPKeySource cfg) (issuerURL_ cfg)
                (audience_ cfg)) w)).
Proof.
  repeat split; try reflexivity.
  - apply (cacheOptions_getJWKeyFunc _ true).
  - apply (cacheOptions_getJWKeyFunc _ false).
  - intros W h w cfg. rewrite cacheOptions_NewKeycloakAuthenticator.
    destruct (fst _); [|apply Forall_nil_2].
    destruct (useHTTPKeySource cfg); [|apply Forall_nil_2].
    apply Forall_cons_2; [reflexivity|apply Forall_nil_2].
Qed.

(** C7 as stated fails: no configuration has a key-set cache made with a
    refresh interval, a rate limit or a timeout other than the constants. *)
Lemma options_not_recognized :
  ~ recognized keyfunc.RefreshInterval time.Hour
  /\ ~ recognized keyfunc.RefreshRateLimit (time.Minute * 5)
  /\ ~ recognized keyfunc.RefreshTimeout (time.Second * 10).
Proof.
  assert (Hfixed : forall cfg (W : Type) (h : Handler W) (w : W) o,
            o ∈ cacheOptions h
                  (NewKeycloakAuthenticator (useHTTPKeySource cfg) (issuerURL_ cfg)
                     (audience_ cfg)) w ->
            o = pollingOptions).
  { intros cfg W h w o. rewrite cacheOptions_NewKeycloakAuthenticator.
    destruct (fst _); [|by intros ?%elem_of_nil].
    destruct (useHTTPKeySource cfg); [|by intros ?%elem_of_nil].
    by intros ->%list_elem_of_singleton. }
  repeat split; intros (cfg & W & h & w & o & Ho & Hne);
    apply Hfixed in Ho; subst o; by apply Hne.
Qed.

(** ** The key-set cache of the design document *)

Section CacheProperties.
Import Design.
Variable fetch : Z -> option SigningKeySet.

Lemma refreshes_cons o os :
  refreshes (o :: os) = (if refreshed o then 1 else 0) + refreshes os.
Proof.
  unfold refreshes. rewrite filter_cons.
  destruct (refreshed o); case_decide; simpl; congruence.
Qed.

Lemma Refresh_polling now c : polling (Refresh fetch now c) = polling c.
Proof. unfold Refresh. by destruct (fetch now). Qed.

Lemma Refresh_lastRefreshAttempt now c :
  lastRefreshAttempt (Refresh fetch now c) = now.
Proof. unfold Refresh. by destruct (fetch now). Qed.

Lemma Refresh_rateLimit now c : rateLimit (Refresh fetch now c) = rateLimit c.
Proof. unfold rateLimit. by rewrite Refresh_polling. Qed.

Lemma Refresh_keySet now c keyID :
  keySet c !! keyID = None ->
  match keySet (Refresh fetch now c) !! keyID with
  | Some k => inl k
  | None => inr UnknownKeyError
  end = served fetch now keyID.
Proof.
  intros Habs. unfold Refresh, served.
  destruct (fetch now) as [ks|]; simpl; [done|]. by rewrite Habs.
Qed.

(** One lookup: either no refresh and the cache is as before, or a
    refresh was due, the key was absent, and the attempt is recorded. *)
Lemma Lookup_cases now keyID c :
  let '(ans, c', re) := Lookup fetch now keyID c in
  (re = false /\ c' = c
   /\ ans = match keySet c !! keyID with
            | Some k => inl k
            | None => inr UnknownKeyError
            end)
  \/ (re = true /\ c' = Refresh fetch now c /\ mayRefresh now c = true
      /\ keySet c !! keyID = None /\ ans = served fetch now keyID).
Proof.
  unfold Lookup. destruct (keySet c !! keyID) as [k|] eqn:Hk; [by left|].
  destruct (mayRefresh now c) eqn:Hmay; [right|by left].
  repeat split; try done. by apply Refresh_keySet.
Qed.

Lemma quiet_mayRefresh c now keyID :
  quiet c (now, keyID) -> mayRefresh now c = false.
Proof.
  unfold quiet, mayRefresh. simpl. destruct (polling c); [|done].
  intros Hlt. apply Z.leb_gt. lia.
Qed.

(** While the cache is quiet no lookup refreshes, and the absent key IDs
    are unknown. *)
Lemma lookups_quiet reqs c :
  Forall (quiet c) reqs ->
  refreshes (fst (lookups fetch reqs c)) = 0
  /\ Forall (accounted fetch) (fst (lookups fetch reqs c)).
Proof.
  induction 1 as [|[now keyID] reqs Hq _ IH]; simpl; [by split|].
  apply quiet_mayRefresh in Hq.
  pose proof (Lookup_cases now keyID c) as Hcases.
  destruct (Lookup fetch now keyID c) as [[ans c'] re].
  destruct Hcases as [(-> & -> & ->)|(_ & _ & Hmay & _)]; [|congruence].
  destruct (lookups fetch reqs c) as [os c'']. simpl in *.
  destruct IH as [IH1 IH2]. split.
  - by rewrite refreshes_cons.
  - apply Forall_cons_2; [|done]. unfold accounted. simpl.
    intros Habs%bool_decide_eq_true. by rewrite Habs.
Qed.

End CacheProperties.

(** C1 (as amended). For every sequence of lookups arriving within one
    rate-limit window (5 minutes with the options of the package), the
    cache of the design document attempts at most one refresh against the
    key source. A lookup of a key ID absent from the key set fails with
    UnknownKeyError, unless it is the one lookup that attempted the refresh
    and the key source served that key ID, in which case it returns the
    key. When the key source never serves the key IDs asked for, every
    lookup of an absent key ID fails with UnknownKeyError, however many
    there are. *)
Theorem Lookup_rate_limited
    (fetch : Z -> option (gmap string Design.Key)) (c : Design.KeySetCache)
    (reqs : list (Z * string)) (t0 : Z) :
  Forall (fun req => (t0 <= fst req < t0 + Design.rateLimit c)%Z) reqs ->
  let outs := fst (Design.lookups fetch reqs c) in
  Design.refreshes outs <= 1
  /\ Forall (Design.accounted fetch) outs
  /\ ((forall now ks keyID, fetch now = Some ks -> keyID ∈ reqs.*2 -> ks !! keyID = None) ->
      Forall (fun o => Design.absent o = true ->
                       Design.answer o = inr Design.UnknownKeyError) outs).
Proof.
  intros Hwin outs.
  assert (Hmain : Design.refreshes outs <= 1 /\ Forall (Design.accounted fetch) outs).
  { subst outs. revert c Hwin.
    induction reqs as [|[now keyID] reqs IH]; intros c Hwin; simpl.
    { split; [unfold Design.refreshes; simpl; lia|apply Forall_nil_2]. }
    apply Forall_cons in Hwin as [Hnow Hwin]. simpl in Hnow.
    pose proof (Lookup_cases fetch now keyID c) as Hcases.
    destruct (Design.Lookup fetch now keyID c) as [[ans c'] re].
    destruct Hcases as [(-> & -> & ->)|(-> & -> & _ & Habs & ->)].
    - destruct (IH c Hwin) as [IH1 IH2].
      destruct (Design.lookups fetch reqs c) as [os c'']. simpl in *. split.
      + rewrite refreshes_cons. simpl. lia.
      + apply Forall_cons_2; [|done]. unfold Design.accounted. simpl.
        intros Ha%bool_decide_eq_true. by rewrite Ha.
    - destruct (lookups_quiet fetch reqs (Design.Refresh fetch now c)) as [Hq1 Hq2].
      { eapply Forall_impl; [exact Hwin|]. intros [now' keyID'] Hnow'. simpl in Hnow'.
        unfold Design.quiet. rewrite Refresh_lastRefreshAttempt, Refresh_rateLimit. simpl. lia. }
      destruct (Design.lookups fetch reqs _) as [os c'']. simpl in *. split.
      + rewrite refreshes_cons. simpl. lia.
      + apply Forall_cons_2; [|done]. unfold Design.accounted. by simpl. }
  destruct Hmain as [Hone Hacc]. repeat split; [done..|].
  intros Hnever.
  assert (Hids : Forall (fun o => Design.keyID_ o ∈ reqs.*2) outs).
  { subst outs. clear. revert c.
    induction reqs as [|[now keyID] reqs IH]; intros c; simpl; [apply Forall_nil_2|].
    destruct (Design.Lookup fetch now keyID c) as [[ans c'] re].
    specialize (IH c'). destruct (Design.lookups fetch reqs c') as [os c'']. simpl in *.
    apply Forall_cons_2; simpl; [apply list_elem_of_here|].
    eapply Forall_impl; [exact IH|]. intros o Ho. simpl. by apply list_elem_of_further. }
  rewrite Forall_forall in Hacc, Hids. apply Forall_forall. intros o Ho Habs.
  specialize (Hacc o Ho Habs). destruct (Design.refreshed o); [|done].
  rewrite Hacc. unfold Design.served.
  destruct (fetch (Design.at_time o)) as [ks|] eqn:Hks; simpl; [|done].
  by rewrite (Hnever _ _ _ Hks (Hids o Ho)).
Qed.

(** Four lookups of unknown key IDs within the five minutes that start at
    the tenth minute. *)
Lemma Lookup_rate_limited_witness :
  let c := pollingCache {[ "kid1" := "key1" ]} in
  let fetch := fun _ : Z => Some ({[ "kid1" := "key1" ]} : gmap string Design.Key) in
  let reqs := [(600000000000, "bogus1"); (600000000001, "bogus2");
               (750000000000, "bogus1"); (899999999999, "bogus3")]%Z in
  Design.refreshes (fst (Design.lookups fetch reqs c)) <= 1.
Proof.
  intros c fetch reqs.
  apply (Lookup_rate_limited fetch c reqs 600000000000).
  repeat apply Forall_cons_2; [vm_compute; split; congruence..|apply Forall_nil_2].
Defined.

(** C1 as stated fails: a key ID absent from the current key set, looked up
    in polling mode once the rate limit has passed, is fetched from the key
    source and the lookup succeeds. *)
Lemma Lookup_absent_key_counterexample :
  let c := pollingCache {[ "kid1" := "key1" ]} in
  let fetch := fun _ : Z =>
    Some ({[ "kid1" := "key1"; "kid2" := "key2" ]} : gmap string Design.Key) in
  Design.keySet c !! "kid2" = None
  /\ (600000000000 <= 600000000000 < 600000000000 + Design.rateLimit c)%Z
  /\ exists c',
       Design.lookups fetch [(600000000000%Z, "kid2")] c
       = ([{| Design.at_time := 600000000000; Design.keyID_ := "kid2";
              Design.absent := true; Design.refreshed := true;
              Design.answer := inl "key2" |}], c')
       /\ inl "key2" <> (inr Design.UnknownKeyError : Design.Key + Design.LookupError).
Proof.
  intros c fetch. split; [vm_compute; reflexivity|].
  split; [vm_compute; split; congruence|].
  eexists. split; [vm_compute; reflexivity|discriminate].
Qed.

(** ** Expiry and audience *)

Section VerifyProperties.
Import Design.

(** An expired token, or one for another audience, does not pass the
    checks, whatever the key and the signature. *)
Lemma check_rejects w p expectedAudience c :
  (KeycloakClaim.ExpiresAt (claims p) <= now w)%Z
  \/ expectedAudience ∉ KeycloakClaim.Audience (claims p) ->
  exists e c', check w p expectedAudience c = (Some e, c').
Proof.
  intros Hbad. unfold check.
  destruct (Lookup _ _ _ c) as [[[key|[]] c'] re]; [|by eauto].
  destruct (signatureVerifies p key); simpl; [|by eauto].
  destruct (now w <? KeycloakClaim.ExpiresAt (claims p))%Z eqn:Hexp; simpl; [|by eauto].
  destruct (bool_decide _) eqn:Haud; simpl; [|by eauto].
  apply Z.ltb_lt in Hexp. apply bool_decide_eq_true in Haud.
  destruct Hbad; [lia|done].
Qed.

(** Such a token is answered with an error by [Verify]. *)
Lemma Verify_rejects w tokenString p keyFunc expectedAudience :
  decode w tokenString = Some p ->
  (KeycloakClaim.ExpiresAt (claims p) <= now w)%Z
  \/ expectedAudience ∉ KeycloakClaim.Audience (claims p) ->
  exists err w', Verify tokenString keyFunc expectedAudience w = (inr err, w').
Proof.
  intros Hdec Hbad. unfold Verify. rewrite Hdec.
  destruct (keyFunc ≫= _) as [[j c]|]; [|by eauto].
  destruct (check_rejects w p expectedAudience c Hbad) as (e & c' & ->).
  by eauto.
Qed.

End VerifyProperties.

(** C4. With the token verification of the design document, for every
    token whose expiry is not after the time of verification, and for every
    token whose audience does not contain the configured audience,
    AuthenticateRequest returns no UserInfo and an error of kind
    TokenVerificationFailed, whatever the signature, the key set and the
    other claims are. *)
Theorem AuthenticateRequest_expired_or_wrong_audience
    (w : Design.World) (a : KeycloakAuthenticator) (r : http.Request)
    (token : string) (p : Design.ParsedToken) :
  getToken r (jwksURL a) = (token, None) ->
  Design.decode w token = Some p ->
  (KeycloakClaim.ExpiresAt (Design.claims p) <= Design.now w)%Z
  \/ audience a ∉ KeycloakClaim.Audience (Design.claims p) ->
  exists e,
    fst (run Design.library (AuthenticateRequest a r) w) = (None, Some e)
    /\ kind_of e = Some TokenVerificationFailed.
Proof.
  intros Htok Hdec Hbad.
  rewrite run_AuthenticateRequest, Htok. unfold parserAnswer. simpl.
  destruct (Verify_rejects w token p (jwks a) (audience a) Hdec Hbad)
    as (err & w' & ->).
  simpl. by eexists.
Qed.

(** The expired token and the token for another audience are refused. *)
Lemma AuthenticateRequest_expired_or_wrong_audience_witness :
  (exists e,
     fst (run Design.library
            (AuthenticateRequest scenarioAuthenticator (request ["Bearer expired"]))
            scenario) = (None, Some e)
     /\ kind_of e = Some TokenVerificationFailed)
  /\ (exists e,
        fst (run Design.library
               (AuthenticateRequest scenarioAuthenticator (request ["Bearer other"]))
               scenario) = (None, Some e)
        /\ kind_of e = Some TokenVerificationFailed).
Proof.
  split.
  - apply (AuthenticateRequest_expired_or_wrong_audience scenario scenarioAuthenticator
             (request ["Bearer expired"]) "expired"
             (scenarioToken "expired" ["tornjak"] 1699999999));
      [vm_compute; reflexivity..|].
    left. vm_compute. congruence.
  - apply (AuthenticateRequest_expired_or_wrong_audience scenario scenarioAuthenticator
             (request ["Bearer other"]) "other"
             (scenarioToken "other" ["account"] 1700003600));
      [vm_compute; reflexivity..|].
    right. simpl. intros Hin%list_elem_of_singleton. discriminate.
Defined.

(** The end-to-end scenario: the good token gives the role admin. *)
Example scenario_good_token :
  fst (run Design.library
         (AuthenticateRequest scenarioAuthenticator (request ["Bearer good"]))
         scenario)
  = (Some {| Roles := Elems ["admin"] |}, None).
Proof. vm_compute. reflexivity. Qed.

Example scenario_expired_token :
  fst (run Design.library
         (AuthenticateRequest scenarioAuthenticator (request ["Bearer expired"]))
         scenario)
  = (None, Some (Errorf Line115 "Error parsing token: token is expired")).
Proof. vm_compute. reflexivity. Qed.

(** Construction in the scenario, in polling mode. *)
Example scenario_construction :
  fst (run Design.library (NewKeycloakAuthenticator true "https://idp/realms/tornjak" "tornjak")
         scenario)
  = (Some {| jwks := Some 1; jwksURL := "https://idp/certs"; audience := "tornjak" |},
     None).
Proof. vm_compute. reflexivity. Qed.

(** ** Further properties of [getToken] *)

Section TokenShape.

Lemma every_append P (u v : string) : every P (u +:+ v) = every P u && every P v.
Proof.
  induction u as [|c u IH]; [done|].
  rewrite append_cons. cbn [every]. by rewrite IH, andb_assoc.
Qed.

Lemma append_one_neq u c : u +:+ String c "" <> "".
Proof. by destruct u. Qed.

(** A byte that is not ASCII is no white-space byte. *)
Lemma high_not_asciiSpace c : (0x80 <=? byte_val c)%N = true -> asciiSpace c = false.
Proof.
  intros Hhigh%N.leb_le. unfold asciiSpace.
  destruct (byte_val c <? 0x80)%N eqn:Hlow; [|done].
  apply N.ltb_lt in Hlow. lia.
Qed.

Lemma between_le lo hi b : between lo hi b = true -> (lo <= b)%N.
Proof. unfold between. intros [H _]%andb_true_iff. by apply N.leb_le. Qed.

(** The bytes of a rune after the first are continuation bytes. *)
Lemma DecodeRuneInString_high c s r w :
  DecodeRuneInString (String c s) = (r, w) -> highPrefix (Nat.pred w) s = true.
Proof.
  unfold DecodeRuneInString.
  repeat match goal with
  | |- (if ?b then _ else _) = _ -> _ => destruct b eqn:?
  | |- match ?s with EmptyString => _ | String _ _ => _ end = _ -> _ => destruct s
  end; intros [= <- <-]; try reflexivity; cbn [Nat.pred highPrefix];
  repeat match goal with
  | H : _ && _ = true |- _ => apply andb_true_iff in H as [? ?]
  end;
  repeat match goal with
  | H : is_cont _ = true |- _ => apply between_le in H
  | H : between (if ?b then _ else _) _ _ = true |- _ =>
    apply between_le in H; destruct b
  end;
  rewrite ?andb_true_iff, ?N.leb_le; repeat split; lia.
Qed.

(** The first byte of a rune that is not white space is no white-space
    byte. *)
Lemma DecodeRuneInString_first c s r w :
  DecodeRuneInString (String c s) = (r, w) -> IsSpace r = false ->
  asciiSpace c = false.
Proof.
  unfold DecodeRuneInString, asciiSpace.
  destruct (byte_val c <? 0x80)%N; [|done].
  intros [= <- <-] ->. reflexivity.
Qed.

Lemma goodField_extend cur c :
  (forall u, cur = Some u -> goodField u) -> asciiSpace c = false ->
  forall u, extend cur c = Some u -> goodField u.
Proof.
  intros Hcur Hc u [= <-]. split; [apply append_one_neq|].
  unfold noSpace. rewrite every_append. cbn [every]. rewrite Hc. simpl.
  rewrite andb_true_r. destruct cur as [v|]; [|done]. by apply Hcur.
Qed.

(** Every field the scan gives out is not empty and has no white-space
    byte. *)
Lemma fieldsFrom_good s : forall skip cur,
  highPrefix skip s = true ->
  (forall u, cur = Some u -> goodField u) ->
  Forall goodField (fieldsFrom s skip cur).
Proof.
  induction s as [|c s IH]; intros skip cur Hhigh Hcur.
  - destruct cur as [u|]; simpl; [|apply Forall_nil_2].
    apply Forall_cons_2; [by apply Hcur|apply Forall_nil_2].
  - cbn [fieldsFrom]. destruct skip as [|k].
    + destruct (DecodeRuneInString (String c s)) as [r w] eqn:Hdec.
      pose proof (DecodeRuneInString_high _ _ _ _ Hdec) as Hnext.
      destruct (IsSpace r) eqn:Hsp.
      * apply Forall_app_2; [|by apply IH].
        destruct cur as [u|]; simpl; [|apply Forall_nil_2].
        apply Forall_cons_2; [by apply Hcur|apply Forall_nil_2].
      * apply IH; [done|]. apply goodField_extend; [done|].
        by eapply DecodeRuneInString_first.
    + cbn [highPrefix] in Hhigh. apply andb_true_iff in Hhigh as [Hc Hk].
      apply IH; [done|]. destruct cur as [v|]; [|done].
      apply goodField_extend; [done|]. by apply high_not_asciiSpace.
Qed.

Lemma Fields_good s : Forall goodField (Fields s).
Proof. apply fieldsFrom_good; [by destruct s|done]. Qed.

(** A header of ASCII white space only has no field. *)
Lemma Fields_blank ws : every asciiSpace ws = true -> Fields ws = [].
Proof.
  unfold Fields. induction ws as [|c ws IH]; [done|]. cbn [every].
  intros [Hc Hws]%andb_true_iff. rewrite fieldsFrom_space by done. by apply IH.
Qed.

(** Two words, with any ASCII white space around and between. *)
Lemma Fields_two_words ws1 w ws2 t ws3 :
  every asciiSpace ws1 = true -> every asciiSpace ws2 = true ->
  every asciiSpace ws3 = true -> ws2 <> "" ->
  w <> "" -> every asciiGraphic w = true ->
  t <> "" -> every asciiGraphic t = true ->
  Fields (ws1 +:+ w +:+ ws2 +:+ t +:+ ws3) = [w; t].
Proof.
  intros H1 H2 H3 Hne2 Hnew Hw Hnet Ht. unfold Fields.
  rewrite fieldsFrom_spaces by done.
  rewrite (fieldsFrom_word w) by done.
  rewrite fieldsFrom_end by done.
  rewrite fieldsFrom_word by done.
  by rewrite fieldsFrom_trailing.
Qed.

End TokenShape.

(** X1. What getToken returns, in full. With a nil error the token is the
    second of exactly two fields of the Authorization value, the first
    being Bearer. With an error the token is the empty string, and the
    error is the missing-header error (with the redirect URL) when the
    value is empty, and otherwise the error Expected bearer token, got,
    followed by the whole Authorization value as it was received. *)
Theorem getToken_result (r : http.Request) (redirectURL : string) :
  let auth_header := http.Get (http.Header_ r) "Authorization" in
  match getToken r redirectURL with
  | (token, None) =>
    auth_header <> "" /\ Fields auth_header = ["Bearer"; token]
  | (token, Some err) =>
    token = ""
    /\ kind_of err = Some MissingOrMalformedCredential
    /\ (forall t, Fields auth_header <> ["Bearer"; t])
    /\ err = (if decide (auth_header = "") then headerMissing redirectURL
              else expectedBearer auth_header)
    /\ Error err = (if decide (auth_header = "")
                    then "Authorization header missing. Please obtain access token here: "
                         +:+ redirectURL
                    else "Expected bearer token, got " +:+ auth_header)
  end.
Proof.
  cbv zeta.
  destruct (getToken_cases r redirectURL)
    as [[He ->]|[(Hne & t & Ht & ->)|(Hne & Hno & ->)]].
  - split; [done|]. split; [done|].
    split; [intros t; rewrite He; discriminate|].
    split; case_decide; done.
  - by split.
  - split; [done|]. split; [done|].
    split; [intros t Ht; apply Hno; by exists t|].
    split; case_decide; done.
Qed.

(** X2. A token that getToken returns with a nil error is never empty and
    has none of the ASCII white-space bytes (tab, line feed, vertical tab,
    form feed, carriage return, space). *)
Theorem getToken_token_shape (r : http.Request) (redirectURL token : string) :
  getToken r redirectURL = (token, None) ->
  token <> "" /\ noSpace token = true.
Proof.
  intros Hget.
  destruct (getToken_cases r redirectURL)
    as [[_ He]|[(_ & t & Ht & Hok)|(_ & _ & Herr)]]; [congruence| |congruence].
  assert (t = token) as -> by congruence.
  pose proof (Fields_good (http.Get (http.Header_ r) "Authorization")) as Hgood.
  rewrite Ht in Hgood. apply Forall_cons in Hgood as [_ Hgood].
  by apply Forall_cons in Hgood as [Htoken _].
Qed.

Lemma getToken_token_shape_witness :
  "abc.def.ghi" <> "" /\ noSpace "abc.def.ghi" = true.
Proof.
  apply (getToken_token_shape (request [tab +:+ "Bearer  abc.def.ghi" +:+ nbsp])
           "https://idp/certs").
  vm_compute. reflexivity.
Defined.

(** X3. The scheme is compared exactly: for a header of two words
    separated by ASCII white space, getToken returns the second word when
    the first is Bearer, letter for letter, and the error Expected bearer
    token otherwise (bearer, BEARER, Basic, ...). *)
Theorem getToken_scheme_exact (r : http.Request) (redirectURL : string)
    (ws1 scheme ws2 t ws3 : string) :
  http.Get (http.Header_ r) "Authorization"
  = ws1 +:+ scheme +:+ ws2 +:+ t +:+ ws3 ->
  every asciiSpace ws1 = true -> every asciiSpace ws2 = true ->
  every asciiSpace ws3 = true -> ws2 <> "" ->
  scheme <> "" -> every asciiGraphic scheme = true ->
  t <> "" -> every asciiGraphic t = true ->
  getToken r redirectURL
  = if decide (scheme = "Bearer") then (t, None)
    else ("", Some (expectedBearer (ws1 +:+ scheme +:+ ws2 +:+ t +:+ ws3))).
Proof.
  intros Hhdr H1 H2 H3 Hne2 Hnes Hs Hnet Ht.
  pose proof (Fields_two_words ws1 scheme ws2 t ws3 H1 H2 H3 Hne2 Hnes Hs Hnet Ht) as Hf.
  rewrite <- Hhdr in *.
  destruct (getToken_cases r redirectURL)
    as [[He _]|[(_ & t' & Ht' & ->)|(_ & Hno & ->)]].
  - rewrite He in Hf. discriminate.
  - rewrite Hf in Ht'. injection Ht' as -> <-. by rewrite decide_True.
  - destruct (decide (scheme = "Bearer")) as [->|Hne]; [|done].
    destruct Hno. by exists t.
Qed.

Lemma getToken_scheme_exact_witness :
  getToken (request ["bearer abc.def.ghi"]) "https://idp/certs"
  = ("", Some (expectedBearer "bearer abc.def.ghi"))
  /\ getToken (request ["  Bearer" +:+ tab +:+ " abc.def.ghi "]) "https://idp/certs"
     = ("abc.def.ghi", None).
Proof.
  split.
  - apply (getToken_scheme_exact (request ["bearer abc.def.ghi"]) "https://idp/certs"
             "" "bearer" " " "abc.def.ghi" "");
      vm_compute; try reflexivity; discriminate.
  - apply (getToken_scheme_exact (request ["  Bearer" +:+ tab +:+ " abc.def.ghi "])
             "https://idp/certs" "  " "Bearer" (tab +:+ " ") "abc.def.ghi" " ");
      vm_compute; try reflexivity; discriminate.
Defined.

(** X4. A header that is not empty but holds ASCII white space only is not
    reported as missing: getToken returns the error Expected bearer token,
    got, followed by that white space. *)
Theorem getToken_blank_header (r : http.Request) (redirectURL : string) :
  let auth_header := http.Get (http.Header_ r) "Authorization" in
  auth_header <> "" -> every asciiSpace auth_header = true ->
  getToken r redirectURL = ("", Some (expectedBearer auth_header)).
Proof.
  cbv zeta. intros Hne Hblank.
  pose proof (Fields_blank _ Hblank) as Hf.
  destruct (getToken_cases r redirectURL)
    as [[He _]|[(_ & t & Ht & _)|(_ & _ & ->)]].
  - done.
  - rewrite Hf in Ht. discriminate.
  - reflexivity.
Qed.

Lemma getToken_blank_header_witness :
  getToken (request ["  " +:+ tab]) "https://idp/certs"
  = ("", Some (expectedBearer ("  " +:+ tab))).
Proof.
  apply (getToken_blank_header (request ["  " +:+ tab]) "https://idp/certs");
    vm_compute; [discriminate|reflexivity].
Defined.

(** X5. AuthenticateRequest answers with the missing-header error exactly
    when the request has no value list under Authorization, an empty list,
    or a list whose first value is the empty string; later values are not
    looked at. *)
Theorem AuthenticateRequest_missing_header_iff
    (a : KeycloakAuthenticator) (r : http.Request) :
  AuthenticateRequest a r = Ret (None, Some (headerMissing (jwksURL a)))
  <-> (http.Header_ r !! "Authorization" = None
       \/ http.Header_ r !! "Authorization" = Some []
       \/ exists rest, http.Header_ r !! "Authorization" = Some ("" :: rest)).
Proof.
  assert (Hget : http.Get (http.Header_ r) "Authorization" = ""
                 <-> (http.Header_ r !! "Authorization" = None
                      \/ http.Header_ r !! "Authorization" = Some []
                      \/ exists rest, http.Header_ r !! "Authorization" = Some ("" :: rest))).
  { unfold http.Get. destruct (http.Header_ r !! "Authorization") as [[|v rest]|].
    - split; [auto|done].
    - split.
      + intros ->. right. right. by exists rest.
      + intros [?|[?|[rest' [= -> _]]]]; done.
    - split; [auto|done]. }
  rewrite <- Hget. unfold AuthenticateRequest.
  destruct (getToken_cases r (jwksURL a))
    as [[He ->]|[(Hne & t & _ & ->)|(Hne & _ & ->)]].
  - done.
  - split; [discriminate|done].
  - split; [|done]. intros Heq. inversion Heq.
Qed.

Lemma AuthenticateRequest_missing_header_iff_witness :
  AuthenticateRequest scenarioAuthenticator (request [""; "Bearer abc.def.ghi"])
  = Ret (None, Some (headerMissing "https://idp/certs")).
Proof.
  apply (AuthenticateRequest_missing_header_iff scenarioAuthenticator
           (request [""; "Bearer abc.def.ghi"])).
  right. right. exists ["Bearer abc.def.ghi"]. vm_compute. reflexivity.
Defined.

(** ** Further properties of the role translation *)

Section TranslateMore.

(** The mapping has two entries. *)
Lemma StaticRoleMappings_lookup role tornjakRole :
  StaticRoleMappings !! role = Some tornjakRole
  <-> (role = "tornjak-viewer-realm-role" /\ tornjakRole = "viewer")
      \/ (role = "tornjak-admin-realm-role" /\ tornjakRole = "admin").
Proof.
  unfold StaticRoleMappings. rewrite lookup_insert_Some, lookup_singleton_Some.
  split.
  - intros [[<- <-]|[? [<- <-]]]; auto.
  - intros [[-> ->]|[-> ->]]; [by left|right]. split; [discriminate|done].
Qed.

(** No internal role name is itself a provider role name. *)
Lemma StaticRoleMappings_image role tornjakRole :
  StaticRoleMappings !! role = Some tornjakRole ->
  StaticRoleMappings !! tornjakRole = None.
Proof.
  intros [[_ ->]|[_ ->]]%StaticRoleMappings_lookup; vm_compute; reflexivity.
Qed.

Lemma omap_length_le {A B} (f : A -> option B) (l : list A) :
  length (omap f l) <= length l.
Proof.
  induction l as [|x l IH]; simpl; [lia|].
  change (list_omap A B f l) with (omap f l).
  destruct (f x); simpl; lia.
Qed.

(** Once something was appended the slice is not nil. *)
Lemma translateFrom_Elems l roles : exists l', translateFrom (Elems l) roles = Elems l'.
Proof.
  revert l. induction roles as [|role roles IH]; intros l; simpl; [by eexists|].
  destruct (StaticRoleMappings !! role); [apply IH|apply IH].
Qed.

(** Which internal role names come out of the loop started on nil. *)
Lemma elem_of_translate roles tornjakRole :
  tornjakRole ∈ to_list (translateFrom Nil roles)
  <-> (tornjakRole = "viewer" /\ "tornjak-viewer-realm-role" ∈ roles)
      \/ (tornjakRole = "admin" /\ "tornjak-admin-realm-role" ∈ roles).
Proof.
  rewrite translateFrom_to_list. simpl. rewrite list_elem_of_omap. split.
  - intros (role & Hin & [[-> ->]|[-> ->]]%StaticRoleMappings_lookup); auto.
  - intros [[-> Hin]|[-> Hin]]; eexists; (split; [exact Hin|]);
      apply StaticRoleMappings_lookup; auto.
Qed.

End TranslateMore.

(** X6. The translated roles are internal role names only, each one for a
    provider role that is in the input: viewer is in the result exactly
    when the input has the viewer realm role, admin exactly when it has the
    admin realm role, and nothing else is ever in the result. *)
Theorem TranslateToTornjakRoles_membership (a : KeycloakAuthenticator)
    (roles : slice string) (tornjakRole : string) :
  tornjakRole ∈ to_list (TranslateToTornjakRoles a roles)
  <-> (tornjakRole = "viewer" /\ "tornjak-viewer-realm-role" ∈ to_list roles)
      \/ (tornjakRole = "admin" /\ "tornjak-admin-realm-role" ∈ to_list roles).
Proof. unfold TranslateToTornjakRoles. apply elem_of_translate. Qed.

Lemma TranslateToTornjakRoles_membership_witness :
  "admin" ∈ to_list (TranslateToTornjakRoles scenarioAuthenticator
                       (Elems ["offline_access"; "tornjak-admin-realm-role"])).
Proof.
  apply (TranslateToTornjakRoles_membership scenarioAuthenticator
           (Elems ["offline_access"; "tornjak-admin-realm-role"]) "admin").
  right. split; [reflexivity|]. simpl.
  apply list_elem_of_further, list_elem_of_here.
Defined.

(** X7. Translating the concatenation of two role lists gives the
    concatenation of their translations. *)
Theorem TranslateToTornjakRoles_app (a : KeycloakAuthenticator)
    (roles1 roles2 : list string) :
  to_list (TranslateToTornjakRoles a (Elems (roles1 ++ roles2)))
  = to_list (TranslateToTornjakRoles a (Elems roles1))
    ++ to_list (TranslateToTornjakRoles a (Elems roles2)).
Proof.
  unfold TranslateToTornjakRoles. rewrite !translateFrom_to_list. simpl.
  apply omap_app.
Qed.

(** X8. The translation is not idempotent: translating an already
    translated list gives the nil slice, since the internal role names are
    not keys of StaticRoleMappings. *)
Theorem TranslateToTornjakRoles_twice (a : KeycloakAuthenticator)
    (roles : slice string) :
  TranslateToTornjakRoles a (TranslateToTornjakRoles a roles) = Nil.
Proof.
  unfold TranslateToTornjakRoles at 1. apply translateFrom_unmapped.
  apply Forall_forall. intros tornjakRole Hin.
  unfold TranslateToTornjakRoles in Hin. rewrite translateFrom_to_list in Hin.
  simpl in Hin. apply list_elem_of_omap in Hin as (role & _ & Hrole).
  by eapply StaticRoleMappings_image.
Qed.

(** X9. The result is the nil slice exactly when no input role is in
    StaticRoleMappings (an empty or nil input included); otherwise it is a
    slice that is not nil, with at least one and at most as many entries as
    the input. *)
Theorem TranslateToTornjakRoles_nil_iff (a : KeycloakAuthenticator)
    (roles : slice string) :
  (TranslateToTornjakRoles a roles = Nil
   <-> Forall (fun role => StaticRoleMappings !! role = None) (to_list roles))
  /\ (TranslateToTornjakRoles a roles <> Nil ->
      1 <= length (to_list (TranslateToTornjakRoles a roles)))
  /\ length (to_list (TranslateToTornjakRoles a roles)) <= length (to_list roles).
Proof.
  assert (Hiff : TranslateToTornjakRoles a roles = Nil
                 <-> Forall (fun role => StaticRoleMappings !! role = None) (to_list roles)).
  { split; [|apply translateFrom_unmapped].
    unfold TranslateToTornjakRoles. generalize (to_list roles). clear roles.
    intros roles. induction roles as [|role roles IH]; simpl; [intros _; apply Forall_nil_2|].
    destruct (StaticRoleMappings !! role) as [tornjakRole|] eqn:Hrole.
    - intros Hnil.
      destruct (translateFrom_Elems ([] ++ [tornjakRole]) roles) as [l' Hl'].
      unfold append in Hnil. simpl in Hnil, Hl'. congruence.
    - intros Hnil. apply Forall_cons_2; [done|]. by apply IH. }
  split; [exact Hiff|]. split.
  - intros Hne.
    destruct (TranslateToTornjakRoles a roles) as [|l] eqn:Hres; [done|].
    assert (Hex : ~ Forall (fun role => StaticRoleMappings !! role = None) (to_list roles)).
    { intros HF. apply Hiff in HF. congruence. }
    destruct l as [|x l]; simpl; [|lia].
    exfalso. apply Hex. apply Forall_forall. intros role Hin.
    destruct (StaticRoleMappings !! role) as [tornjakRole|] eqn:Hrole; [|done].
    assert (Hmem : tornjakRole ∈ to_list (TranslateToTornjakRoles a roles)).
    { unfold TranslateToTornjakRoles. rewrite translateFrom_to_list. simpl.
      apply list_elem_of_omap. by exists role. }
    rewrite Hres in Hmem. simpl in Hmem. by apply elem_of_nil in Hmem.
  - unfold TranslateToTornjakRoles. rewrite translateFrom_to_list. simpl.
    apply omap_length_le.
Qed.

Lemma TranslateToTornjakRoles_nil_iff_witness :
  TranslateToTornjakRoles scenarioAuthenticator (Elems ["offline_access"]) = Nil
  /\ 1 <= length (to_list (TranslateToTornjakRoles scenarioAuthenticator
                             (Elems ["tornjak-viewer-realm-role"; "x"]))).
Proof.
  split.
  - apply (TranslateToTornjakRoles_nil_iff scenarioAuthenticator (Elems ["offline_access"])).
    apply Forall_cons_2; [vm_compute; reflexivity|apply Forall_nil_2].
  - apply (TranslateToTornjakRoles_nil_iff scenarioAuthenticator
             (Elems ["tornjak-viewer-realm-role"; "x"])).
    vm_compute. discriminate.
Defined.

(** ** Further properties of the two entry points *)

(** X10. AuthenticateRequest calls the libraries at most once: not at all
    when getToken fails, and otherwise only the token parser, once, with
    the token of the header, the key set of the authenticator and its
    audience. It never runs discovery and never makes a key set; the
    state of the libraries afterwards is the one that call left. *)
Theorem AuthenticateRequest_calls {W : Type} (h : Handler W)
    (a : KeycloakAuthenticator) (r : http.Request) (w : W) :
  match getToken r (jwksURL a) with
  | (_, Some _) =>
    trace h (AuthenticateRequest a r) w = []
    /\ snd (run h (AuthenticateRequest a r) w) = w
  | (token, None) =>
    trace h (AuthenticateRequest a r) w
    = [Called (jwt_ParseWithClaims token (jwks a) (audience a))]
    /\ snd (run h (AuthenticateRequest a r) w)
       = snd (h _ (jwt_ParseWithClaims token (jwks a) (audience a)) w)
  end.
Proof.
  rewrite run_AuthenticateRequest. unfold AuthenticateRequest, parserAnswer.
  destruct (getToken r (jwksURL a)) as [token [err|]]; [by split|].
  simpl. destruct (h _ _ w) as [[jwt_token|err] w']; simpl; [|by split].
  by destruct (jwt.Valid jwt_token).
Qed.

(** X11. NewKeycloakAuthenticator first runs discovery on the issuer URL.
    If that fails it calls nothing else. If it succeeds it makes one key
    set from the JWKS URI of the metadata: in polling mode by keyfunc.Get on
    that URI with the fixed options, in static mode by keyfunc.NewJSON with
    that URI given as the key document. It never calls the token parser. *)
Theorem NewKeycloakAuthenticator_calls {W : Type} (h : Handler W)
    (httpjwks : bool) (issuerURL audience : string) (w : W) :
  trace h (NewKeycloakAuthenticator httpjwks issuerURL audience) w
  = Called (discovery_NewClient issuerURL)
    :: match fst (h _ (discovery_NewClient issuerURL) w) with
       | inr _ => []
       | inl oidcClient =>
         let jwksURL := discovery.JWKSURI (discovery.Metadata oidcClient) in
         [Called (if httpjwks then keyfunc_Get jwksURL pollingOptions
                  else keyfunc_NewJSON jwksURL)]
       end.
Proof.
  unfold NewKeycloakAuthenticator. simpl.
  destruct (h _ _ w) as [[oidcClient|err] w1]; simpl; [|reflexivity].
  change (mbind ?f ?p) with (bind p f). rewrite trace_bind, trace_getJWKeyFunc.
  rewrite run_getJWKeyFunc. unfold keySourceCall.
  destruct (h _ _ w1) as [[jwks|err] w2]; simpl; by destruct httpjwks.
Qed.



(** X13. A UserInfo is returned only for a token that the parser answered
    valid, and its roles come from that token's realm roles alone: viewer
    is among them exactly when the token has the viewer realm role, admin
    exactly when it has the admin realm role, and there is no other role. *)
Theorem AuthenticateRequest_roles_from_token {W : Type} (h : Handler W)
    (a : KeycloakAuthenticator) (r : http.Request) (w : W)
    (u : UserInfo) (e : option error) :
  fst (run h (AuthenticateRequest a r) w) = (Some u, e) ->
  exists token jwt_token,
    let realmRoles :=
      to_list (KeycloakClaim.Roles (KeycloakClaim.RealmAccess (jwt.Claims jwt_token))) in
    getToken r (jwksURL a) = (token, None)
    /\ fst (h _ (jwt_ParseWithClaims token (jwks a) (audience a)) w) = inl jwt_token
    /\ jwt.Valid jwt_token = true
    /\ e = None
    /\ forall role, role ∈ to_list (Roles u)
         <-> (role = "viewer" /\ "tornjak-viewer-realm-role" ∈ realmRoles)
             \/ (role = "admin" /\ "tornjak-admin-realm-role" ∈ realmRoles).
Proof.
  rewrite run_AuthenticateRequest. unfold parserAnswer.
  destruct (getToken r (jwksURL a)) as [token [err|]]; [discriminate|].
  destruct (h _ _ w) as [[jwt_token|err] w'] eqn:Hparse; simpl; [|discriminate].
  destruct (jwt.Valid jwt_token) eqn:Hvalid; [|discriminate].
  intros [= <- <-]. exists token, jwt_token. cbv zeta.
  split; [done|]. split; [by rewrite Hparse|]. split; [done|]. split; [done|].
  intros role. simpl. unfold TranslateToTornjakRoles. apply elem_of_translate.
Qed.

Lemma AuthenticateRequest_roles_from_token_witness :
  let parsed := {|
    jwt.Valid := true;
    jwt.Claims := {| KeycloakClaim.RealmAccess :=
                       {| KeycloakClaim.Roles := Elems ["tornjak-admin-realm-role"] |};
                     KeycloakClaim.Issuer := "https://idp/realms/tornjak";
                     KeycloakClaim.Audience := ["tornjak"];
                     KeycloakClaim.ExpiresAt := 1700003600 |} |} in
  let h := fixedLibrary (inr (Errorf Library "unused")) (inl 0) (inl parsed) in
  exists token jwt_token,
    getToken (request ["Bearer abc.def.ghi"]) "https://idp/certs" = (token, None)
    /\ jwt.Valid jwt_token = true.
Proof.
  intros parsed h.
  destruct (AuthenticateRequest_roles_from_token h scenarioAuthenticator
              (request ["Bearer abc.def.ghi"]) tt {| Roles := Elems ["admin"] |} None)
    as (token & jwt_token & Htok & _ & Hvalid & _).
  - vm_compute. reflexivity.
  - exists token, jwt_token. by split.
Defined.

(** X14. The JWKS URL of the authenticator matters to AuthenticateRequest
    only for the hint of the missing-header error: with a header value that
    is not empty, two authenticators with the same key set and audience
    behave the same, whatever their JWKS URLs. *)
Theorem AuthenticateRequest_jwksURL_only_in_hint
    (a1 a2 : KeycloakAuthenticator) (r : http.Request) :
  jwks a1 = jwks a2 -> audience a1 = audience a2 ->
  http.Get (http.Header_ r) "Authorization" <> "" ->
  AuthenticateRequest a1 r = AuthenticateRequest a2 r.
Proof.
  intros Hjwks Haud Hne. unfold AuthenticateRequest, getToken.
  rewrite !decide_False by done. rewrite Hjwks, Haud. reflexivity.
Qed.

Lemma AuthenticateRequest_jwksURL_only_in_hint_witness :
  AuthenticateRequest scenarioAuthenticator (request ["Bearer abc.def.ghi"])
  = AuthenticateRequest
      {| jwks := Some 0; jwksURL := "https://other/certs"; audience := "tornjak" |}
      (request ["Bearer abc.def.ghi"]).
Proof.
  apply AuthenticateRequest_jwksURL_only_in_hint; [reflexivity..|].
  vm_compute. discriminate.
Defined.
